(** * PeerShare: the signaling relay and the chunked file transfer

    A shallow embedding of the two stateful parts of the repository:

    - the WebSocket signaling server ([BE/server_nocmt.js] and its commented
      twin [src/unnamed/part_000], which adds the ['session-ended'] case),
      and
    - the data-channel file transfer of the front end ([chunkFile],
      [sendFile], [createFileReceiver]).

    The file first gives every definition, then the facts proved about
    them. *)

From Stdlib Require Import ZArith QArith Qround Qpower Lqa.
From Stdlib.Strings Require Import Byte.
From stdpp Require Import gmap strings list pretty.

Local Open Scope string_scope.

(** ** Values that travel as JSON *)

Module JS.

(** What [JSON.parse] can return.  Numbers are kept as integers: the only
    numbers the code computes with are byte counts. *)
#[warnings="-register-all"]
Inductive json : Type :=
| JNull
| JBool (b : bool)
| JNum (n : Z)
| JStr (s : string)
| JArr (items : list json)
| JObj (fields : list (string * json)).

(** A property read gives a value or [undefined], written [None]. *)
Definition value : Type := option json.

Fixpoint assoc {A} (k : string) (fs : list (string * A)) : option A :=
  match fs with
  | [] => None
  | (k', v) :: fs' => if String.eqb k k' then Some v else assoc k fs'
  end.

(** [v.k] for a [v] that is not [null].  Only own properties of objects
    answer: none of the property names the code reads ([type], [code],
    [offer], [answer], [candidate], [fileName], [fileSize], [fileType],
    [name], [size], [mimeType]) lives on a prototype of a JSON value. *)
Definition get_prop (v : json) (k : string) : value :=
  match v with
  | JObj fs => assoc k fs
  | _ => None
  end.

(** An object literal as [JSON.stringify] writes it: a property whose value
    is [undefined] is left out. *)
Fixpoint literal (fs : list (string * value)) : list (string * json) :=
  match fs with
  | [] => []
  | (k, Some v) :: fs' => (k, v) :: literal fs'
  | (_, None) :: fs' => literal fs'
  end.

Definition obj (fs : list (string * value)) : json := JObj (literal fs).

Definition str (s : string) : value := Some (JStr s).

End JS.

Import JS.

(** ** The signaling server *)

Module Relay.

(** A WebSocket object of the server, known by its identity. *)
Definition conn : Type := nat.

Inductive ready_state : Type := CONNECTING | OPEN | CLOSING | CLOSED.

Inductive role : Type := RSender | RReceiver.

Definition role_name (r : option role) : string :=
  match r with
  | Some RSender => "sender"
  | Some RReceiver => "receiver"
  | None => "null"
  end.

(** A value of the [rooms] map: [{ sender: ws, receiver: null }]; the
    sender slot is filled when the object is built and never written
    again. *)
Record room : Type := Room { sender : conn; receiver : option conn }.

(** The state one connection owns: its socket's [readyState] and the two
    variables of its handler's closure. *)
Record client : Type := Client {
  readyState : ready_state;
  currentCode : option string;
  currentRole : option role
}.

Record server : Type := Server {
  rooms : gmap string room;
  clients : gmap conn client
}.

Definition init : server := Server ∅ ∅.

(** The two copies of the server in the repository.  [ServerJs] is the
    commented one ([src/unnamed/part_000]), which has a ['session-ended']
    case; [ServerNocmtJs] is [BE/server_nocmt.js], which has not and is
    the same otherwise. *)
Inductive build : Type := ServerJs | ServerNocmtJs.

(** What one [ws.send] puts on the wire: the receiving socket and the
    object given to [JSON.stringify]. *)
Definition sent : Type := (conn * json)%type.

Inductive outcome : Type :=
| Returned (st : server) (out : list sent)
| Threw
| Spins.

Definition is_open (st : server) (ws : conn) : bool :=
  match clients st !! ws with
  | Some c => match readyState c with OPEN => true | _ => false end
  | None => false
  end.

(** *** Numbers

    A JavaScript number is an IEEE 754 double.  A finite double is given
    here by the rational it stands for, and an operation on doubles by
    its exact result rounded to the nearest double, the one with the even
    significand when two are as near.  Nothing in this program comes
    near the largest double, so the rounding has no case for an
    infinity. *)

Definition pow2 (e : Z) : Q := (2 ^ e)%Q.

(** The exponent of a rational above zero: the [e] with
    [2 ^ e <= x < 2 ^ (e + 1)]. *)
Definition exponent (x : Q) : Z :=
  let e := (Z.log2 (Qnum x) - Z.log2 (Zpos (Qden x)))%Z in
  if Qle_bool (pow2 e) x then e else (e - 1)%Z.

(** The step between the doubles around [x]: 52 binary places under the
    exponent of [x], and under the least exponent of a normal double for
    the numbers below that. *)
Definition ulp (x : Q) : Q := pow2 (Z.max (exponent x) (-1022) - 52).

(** The nearest integer; of two that are as near, the even one. *)
Definition nearestEven (q : Q) : Z :=
  let f := Qfloor q in
  match (q - inject_Z f ?= 1 # 2)%Q with
  | Lt => f
  | Gt => (f + 1)%Z
  | Eq => if Z.even f then f else (f + 1)%Z
  end.

(** The double nearest to [x]. *)
Definition binary64 (x : Q) : Q :=
  match (x ?= 0)%Q with
  | Eq => 0%Q
  | Gt => (inject_Z (nearestEven (x / ulp x)) * ulp x)%Q
  | Lt => (- (inject_Z (nearestEven (- x / ulp (- x))) * ulp (- x)))%Q
  end.

(** [x] is a double. *)
Definition isDouble (x : Q) : Prop := (binary64 x == x)%Q.

(** [generateCode], from the double [r] that [Math.random()] returned:
    the product is rounded, then the sum; [Math.floor] of a double is
    exact, and [toString] of a whole number of this size gives its
    decimal digits. *)
Definition generateCode (r : Q) : string :=
  pretty (Qfloor (binary64 (1000 + binary64 (r * 9000)))).

(** [generateUniqueCode], over the values [Math.random()] returns one
    after the other; [None] when the loop has not found a free code within
    them. *)
Fixpoint generateUniqueCode (rs : gmap string room) (draws : list Q)
  : option string :=
  match draws with
  | [] => None
  | r :: draws' =>
      let code := generateCode r in
      if decide (is_Some (rs !! code)) then generateUniqueCode rs draws'
      else Some code
  end.

Definition sendMessage (st : server) (ws : conn) (message : json)
  : list sent :=
  if is_open st ws then [(ws, message)] else [].

(** [if (peer) sendMessage(peer, message)], for a slot that may hold
    [null]. *)
Definition sendIfPresent (st : server) (peer : option conn) (message : json)
  : list sent :=
  match peer with
  | Some p => sendMessage st p message
  | None => []
  end.

Definition slot (r : role) (rm : room) : option conn :=
  match r with
  | RSender => Some (sender rm)
  | RReceiver => receiver rm
  end.

(** [role === 'sender' ? room.receiver : room.sender] *)
Definition otherPeer (r : option role) (rm : room) : option conn :=
  match r with
  | Some RSender => receiver rm
  | _ => Some (sender rm)
  end.

(** [currentCode && rooms.has(currentCode)], giving the room. *)
Definition currentRoom (st : server) (c : client) : option room :=
  match currentCode c with
  | Some code => if String.eqb code "" then None else rooms st !! code
  | None => None
  end.

(** [rooms.has(key)] and [rooms.get(key)] for a key read from a message:
    the keys of [rooms] are strings, so only a string finds a room. *)
Definition roomOfKey (st : server) (key : value) : option (string * room) :=
  match key with
  | Some (JStr code) =>
      match rooms st !! code with
      | Some rm => Some (code, rm)
      | None => None
      end
  | _ => None
  end.

Inductive tag : Type :=
| CreateRoom | JoinRoom | Offer | Answer | IceCandidate | FileMeta
| SessionEnded | Unknown.

(** The [switch (message.type)] of the build at hand. *)
Definition tag_of (b : build) (t : value) : tag :=
  match t with
  | Some (JStr s) =>
      if String.eqb s "create-room" then CreateRoom
      else if String.eqb s "join-room" then JoinRoom
      else if String.eqb s "offer" then Offer
      else if String.eqb s "answer" then Answer
      else if String.eqb s "ice-candidate" then IceCandidate
      else if String.eqb s "file-meta" then FileMeta
      else if String.eqb s "session-ended" then
        match b with ServerJs => SessionEnded | ServerNocmtJs => Unknown end
      else Unknown
  | _ => Unknown
  end.

Definition errorMessage (text : string) : json :=
  obj [("type", str "error"); ("message", str text)].

Definition setClient (st : server) (ws : conn) (c : client) : server :=
  Server (rooms st) (<[ws := c]> (clients st)).

Definition setRoom (st : server) (code : string) (rm : room) : server :=
  Server (<[code := rm]> (rooms st)) (clients st).

(** The body of [ws.on('message', ...)] after [JSON.parse] has returned
    [message], for the connection [ws] whose closure is [c]. *)
Definition dispatch (b : build) (draws : list Q) (ws : conn) (c : client)
    (message : json) (st : server) : outcome :=
  match tag_of b (get_prop message "type") with
  | CreateRoom =>
      match generateUniqueCode (rooms st) draws with
      | None => Spins
      | Some code =>
          let st1 := setRoom st code (Room ws None) in
          let st2 :=
            setClient st1 ws
              (Client (readyState c) (Some code) (Some RSender)) in
          Returned st2
            (sendMessage st2 ws
               (obj [("type", str "room-created"); ("code", str code)]))
      end
  | JoinRoom =>
      let joinCode := get_prop message "code" in
      match roomOfKey st joinCode with
      | None =>
          Returned st
            (sendMessage st ws (errorMessage "Invalid code. No room found."))
      | Some (code, rm) =>
          match receiver rm with
          | Some _ =>
              Returned st
                (sendMessage st ws
                   (errorMessage "Room is full. Someone already joined."))
          | None =>
              let st1 := setRoom st code (Room (sender rm) (Some ws)) in
              let st2 :=
                setClient st1 ws
                  (Client (readyState c) (Some code) (Some RReceiver)) in
              Returned st2
                (sendMessage st2 ws
                   (obj [("type", str "room-joined"); ("code", joinCode)])
                 ++ sendMessage st2 (sender rm)
                      (obj [("type", str "peer-joined")]))
          end
      end
  | Offer =>
      match currentRoom st c with
      | Some rm =>
          Returned st
            (sendIfPresent st (receiver rm)
               (obj [("type", str "offer");
                     ("offer", get_prop message "offer")]))
      | None => Returned st []
      end
  | Answer =>
      match currentRoom st c with
      | Some rm =>
          Returned st
            (sendIfPresent st (Some (sender rm))
               (obj [("type", str "answer");
                     ("answer", get_prop message "answer")]))
      | None => Returned st []
      end
  | IceCandidate =>
      match currentRoom st c with
      | Some rm =>
          Returned st
            (sendIfPresent st (otherPeer (currentRole c) rm)
               (obj [("type", str "ice-candidate");
                     ("candidate", get_prop message "candidate")]))
      | None => Returned st []
      end
  | FileMeta =>
      match currentRoom st c with
      | Some rm =>
          Returned st
            (sendIfPresent st (receiver rm)
               (obj [("type", str "file-meta");
                     ("fileName", get_prop message "fileName");
                     ("fileSize", get_prop message "fileSize");
                     ("fileType", get_prop message "fileType")]))
      | None => Returned st []
      end
  | SessionEnded =>
      match currentRoom st c with
      | Some rm =>
          Returned st
            (sendIfPresent st (otherPeer (currentRole c) rm)
               (obj [("type", str "session-ended");
                     ("message",
                      str ("The " ++ role_name (currentRole c)
                           ++ " has ended the session"))]))
      | None => Returned st []
      end
  | Unknown => Returned st []
  end.

(** [ws.on('message', (data) => ...)].  [data] is given by what
    [JSON.parse(data)] does with it: [None] when it throws, [Some message]
    when it returns.  Reading [message.type] of [null] throws outside the
    [try]. A socket without a handler runs nothing. *)
Definition on_message (b : build) (draws : list Q) (ws : conn)
    (data : option json) (st : server) : outcome :=
  match clients st !! ws with
  | None => Returned st []
  | Some c =>
      match data with
      | None =>
          Returned st
            (sendMessage st ws (errorMessage "Invalid message format"))
      | Some JNull => Threw
      | Some message => dispatch b draws ws c message st
      end
  end.

(** [handleDisconnect(code, role)] *)
Definition handleDisconnect (code : option string) (r : option role)
    (st : server) : server * list sent :=
  match code with
  | None => (st, [])
  | Some code =>
      if String.eqb code "" then (st, [])
      else
        match rooms st !! code with
        | None => (st, [])
        | Some rm =>
            (Server (delete code (rooms st)) (clients st),
             sendIfPresent st (otherPeer r rm)
               (obj [("type", str "peer-disconnected");
                     ("message",
                      str ("The " ++ role_name r ++ " has disconnected"))]))
        end
  end.

(** [ws.on('close', ...)]: the socket is [CLOSED] when the handler runs. *)
Definition on_close (ws : conn) (st : server) : server * list sent :=
  match clients st !! ws with
  | None => (st, [])
  | Some c =>
      handleDisconnect (currentCode c) (currentRole c)
        (setClient st ws (Client CLOSED (currentCode c) (currentRole c)))
  end.

(** [wss.on('connection', (ws) => ...)]: a new socket, open, with both
    closure variables [null]. *)
Definition on_connection (ws : conn) (st : server) : server :=
  match clients st !! ws with
  | Some _ => st
  | None => setClient st ws (Client OPEN None None)
  end.

Inductive event : Type :=
| Connection (ws : conn)
| Message (ws : conn) (data : option json) (draws : list Q)
| Close (ws : conn).

Definition step (b : build) (st : server) (ev : event) : outcome :=
  match ev with
  | Connection ws => Returned (on_connection ws st) []
  | Message ws data draws => on_message b draws ws data st
  | Close ws => let '(st', out) := on_close ws st in Returned st' out
  end.

(** A sequence of events, with what each of them sent; [None] when a
    handler threw or did not return. *)
Fixpoint run (b : build) (st : server) (evs : list event)
  : option (server * list (list sent)) :=
  match evs with
  | [] => Some (st, [])
  | ev :: evs' =>
      match step b st ev with
      | Returned st' out =>
          match run b st' evs' with
          | Some (st'', outs) => Some (st'', out :: outs)
          | None => None
          end
      | _ => None
      end
  end.

(** *** Words of the specification, over the server's state *)

(** The connection [ws] is bound to the room [rm] of code [code] with role
    [r]: its closure holds the code and the role, the registry holds the
    room under that code, and the room holds [ws] in the slot of [r]. *)
Definition bound (st : server) (ws : conn) (code : string) (r : role)
    (rm : room) : Prop :=
  (exists c, clients st !! ws = Some c
             /\ currentCode c = Some code /\ currentRole c = Some r)
  /\ code <> ""
  /\ rooms st !! code = Some rm
  /\ slot r rm = Some ws.

(** The other slot of the room. *)
Definition counterpart (r : role) (rm : room) : option conn :=
  match r with
  | RSender => receiver rm
  | RReceiver => Some (sender rm)
  end.

Definition payload (t : tag) : bool :=
  match t with
  | Offer | Answer | IceCandidate | FileMeta => true
  | _ => false
  end.

(** The object the relay builds for a payload message of tag [t]. *)
Definition relayed (t : tag) (message : json) : json :=
  match t with
  | Offer =>
      obj [("type", str "offer"); ("offer", get_prop message "offer")]
  | Answer =>
      obj [("type", str "answer"); ("answer", get_prop message "answer")]
  | IceCandidate =>
      obj [("type", str "ice-candidate");
           ("candidate", get_prop message "candidate")]
  | FileMeta =>
      obj [("type", str "file-meta");
           ("fileName", get_prop message "fileName");
           ("fileSize", get_prop message "fileSize");
           ("fileType", get_prop message "fileType")]
  | _ => JNull
  end.

(** The property names that carry the payload of a message of tag [t]. *)
Definition payloadFields (t : tag) : list string :=
  match t with
  | Offer => ["offer"]
  | Answer => ["answer"]
  | IceCandidate => ["candidate"]
  | FileMeta => ["fileName"; "fileSize"; "fileType"]
  | _ => []
  end.

(** Where the server sends a payload message of tag [t]: the slot is
    chosen by the message's type, and by the role for ICE candidates
    only. *)
Definition target (t : tag) (r : role) (rm : room) : option conn :=
  match t with
  | Offer | FileMeta => receiver rm
  | Answer => Some (sender rm)
  | _ => counterpart r rm
  end.

(** The roles that send each payload type in the protocol of the front
    end: the sender offers and announces the file, the receiver answers,
    both send ICE candidates. *)
Definition expected (t : tag) (r : role) : bool :=
  match t, r with
  | Offer, RSender | FileMeta, RSender | Answer, RReceiver
  | IceCandidate, _ => true
  | _, _ => false
  end.

(** Routing to the counterpart, whatever the payload type. *)
Definition relays_to_counterpart (b : build) (st : server) (ws : conn)
    (message : json) : Prop :=
  forall draws code r rm,
    bound st ws code r rm ->
    payload (tag_of b (get_prop message "type")) = true ->
    on_message b draws ws (Some message) st
    = Returned st
        (sendIfPresent st (counterpart r rm)
           (relayed (tag_of b (get_prop message "type")) message)).

(** A binding that never changes: no message moves the role or the code
    of a connection that has them. *)
Definition binding_immutable (b : build) (st : server) (ws : conn)
    (data : option json) (draws : list Q) : Prop :=
  forall c st' out,
    clients st !! ws = Some c ->
    is_Some (currentRole c) ->
    on_message b draws ws data st = Returned st' out ->
    exists c', clients st' !! ws = Some c'
               /\ currentRole c' = currentRole c
               /\ currentCode c' = currentCode c.

(** The states the server gets to from its start. *)
Inductive reachable (b : build) : server -> Prop :=
| reachable_init : reachable b init
| reachable_step st ev st' out :
    reachable b st -> step b st ev = Returned st' out -> reachable b st'.

(** No room is filed under the empty string. *)
Definition codes_nonempty (st : server) : Prop :=
  forall code rm, rooms st !! code = Some rm -> code <> "".

Definition createRoom : json := obj [("type", str "create-room")].

Definition joinRoom (code : string) : json :=
  obj [("type", str "join-room"); ("code", str code)].

(** One [join-room] for [code] by each connection of [wss], in order. *)
Definition joins (code : string) (wss : list conn) : list event :=
  map (fun ws => Message ws (Some (joinRoom code)) []) wss.

Definition peerDisconnected (r : role) : json :=
  obj [("type", str "peer-disconnected");
       ("message", str ("The " ++ role_name (Some r) ++ " has disconnected"))].

Definition sessionEnded (r : role) : json :=
  obj [("type", str "session-ended");
       ("message",
        str ("The " ++ role_name (Some r) ++ " has ended the session"))].



(** A room of two: connection 1 created it, connection 2 joined. *)
Definition paired : server :=
  Server {[ "5500" := Room 1 (Some 2) ]}
    {[ 1 := Client OPEN (Some "5500") (Some RSender);
       2 := Client OPEN (Some "5500") (Some RReceiver) ]}.

(** A room waiting for its receiver, and a third connection. *)
Definition waiting : server :=
  Server {[ "5500" := Room 1 None ]}
    {[ 1 := Client OPEN (Some "5500") (Some RSender);
       2 := Client OPEN None None;
       3 := Client OPEN None None ]}.

(** The room of two and a second room, made by connection 3, that waits
    for its receiver. *)
Definition two_rooms : server :=
  Server {[ "5500" := Room 1 (Some 2); "1000" := Room 3 None ]}
    {[ 1 := Client OPEN (Some "5500") (Some RSender);
       2 := Client OPEN (Some "5500") (Some RReceiver);
       3 := Client OPEN (Some "1000") (Some RSender) ]}.

(** The room of two after its sender has asked for a room again. *)
Definition rebound : server :=
  Server {[ "5500" := Room 1 (Some 2); "1000" := Room 1 None ]}
    {[ 1 := Client OPEN (Some "1000") (Some RSender);
       2 := Client OPEN (Some "5500") (Some RReceiver) ]}.

End Relay.

Import Relay.

(** ** The file transfer over the data channel *)

Module Transfer.

Definition CHUNK_SIZE : nat := 16 * 1024.

Definition BUFFER_THRESHOLD : Z := 64 * 1024.

(** A [File]: its name, its MIME type and its bytes; [file.size] is the
    number of bytes. *)
Record File : Type := MkFile {
  name : string;
  type : string;
  content : list Byte.byte
}.

Definition size (file : File) : Z := Z.of_nat (length (content file)).

(** The least number of frames of [f] bytes that hold [l] bytes. *)
Definition ceilDiv (l f : nat) : nat := (l + f - 1) / f.

(** [arrayBuffer.slice(start, end)] *)
Definition slice (buf : list Byte.byte) (start end_ : nat) : list Byte.byte :=
  take (end_ - start) (drop start buf).

(** The [for] loop of [chunkFile] with chunk size [size]: [offset] and
    [chunks] are its two variables.  [None] when the loop is still running
    after [fuel] rounds. *)
Fixpoint chunk_loop (size : nat) (buf : list Byte.byte) (fuel offset : nat)
    (chunks : list (list Byte.byte)) : option (list (list Byte.byte)) :=
  if (offset <? length buf)%nat then
    match fuel with
    | O => None
    | S fuel' =>
        let end_ := Nat.min (offset + size) (length buf) in
        chunk_loop size buf fuel' (offset + size)
          (chunks ++ [slice buf offset end_])
    end
  else Some chunks.

Definition chunksOf (size : nat) (buf : list Byte.byte)
  : option (list (list Byte.byte)) :=
  chunk_loop size buf (length buf) 0 [].

(** [chunkFile(file)], once the reader has loaded the file. *)
Definition chunkFile (file : File) : option (list (list Byte.byte)) :=
  chunksOf CHUNK_SIZE (content file).

(** A message on the data channel: a string, given by the value it is the
    JSON text of, or an [ArrayBuffer]. *)
Inductive frame : Type :=
| Text (v : json)
| Binary (b : list Byte.byte).

Definition metadata (file : File) : json :=
  obj [("type", str "file-meta");
       ("name", str (name file));
       ("size", Some (JNum (size file)));
       ("mimeType",
        str (if String.eqb (type file) "" then "application/octet-stream"
             else type file))].

Definition fileEnd : json := obj [("type", str "file-end")].

(** The 19 bytes of the text [{"type":"file-end"}]. *)
Definition fileEndLength : Z := 19.

(** The variables of one [sendFile] call, the data channel's
    [bufferedAmount], every frame handed to [dataChannel.send] so far
    (oldest first) and every [onProgress] report as [(sent, total)];
    [percent] is a floating-point function of the two and is left out. *)
Record encoder : Type := Encoder {
  chunks : list (list Byte.byte);
  sentChunks : nat;
  sentBytes : Z;
  total : Z;
  bufferedAmount : Z;
  wire : list frame;
  reports : list (Z * Z)
}.

(** One round of the [while] body: send [chunk], count it, report. *)
Definition sendChunk (chunk : list Byte.byte) (e : encoder) : encoder :=
  let sentBytes' := (sentBytes e + Z.of_nat (length chunk))%Z in
  Encoder (chunks e) (S (sentChunks e)) sentBytes' (total e)
    (bufferedAmount e + Z.of_nat (length chunk))%Z
    (wire e ++ [Binary chunk])
    (reports e ++ [(sentBytes', total e)]).

(** The [while] loop of [sendNextChunk]; [rest] is [chunks] from index
    [sentChunks] on, so [rest] is empty exactly when
    [sentChunks < chunks.length] fails and its head is
    [chunks[sentChunks]]. *)
Fixpoint while_loop (rest : list (list Byte.byte)) (e : encoder) : encoder :=
  match rest with
  | [] => e
  | chunk :: rest' =>
      if (bufferedAmount e <=? BUFFER_THRESHOLD)%Z
      then while_loop rest' (sendChunk chunk e)
      else e
  end.

Definition sendFileEnd (e : encoder) : encoder :=
  Encoder (chunks e) (sentChunks e) (sentBytes e) (total e)
    (bufferedAmount e + fileEndLength)%Z
    (wire e ++ [Text fileEnd])
    (reports e).

Definition sendNextChunk (e : encoder) : encoder :=
  let e' := while_loop (drop (sentChunks e) (chunks e)) e in
  if (length (chunks e') <=? sentChunks e')%nat then sendFileEnd e' else e'.

(** [sendFile(dataChannel, file, onProgress)] up to its return: the
    metadata frame, the chunking, the first [sendNextChunk].  [b0] is the
    channel's [bufferedAmount] when that first call starts. *)
Definition sendFile (file : File) (b0 : Z) : option encoder :=
  match chunkFile file with
  | Some chunks =>
      Some (sendNextChunk
              (Encoder chunks 0 0 (size file) b0 [Text (metadata file)] []))
  | None => None
  end.

(** The channel's [bufferedamountlow] event, with the [bufferedAmount] it
    has fallen to: the handler is [sendNextChunk]. *)
Definition onbufferedamountlow (b : Z) (e : encoder) : encoder :=
  sendNextChunk
    (Encoder (chunks e) (sentChunks e) (sentBytes e) (total e) b (wire e)
       (reports e)).

(** The event fires when [bufferedAmount] falls from above the threshold
    to the threshold or below. *)
Definition fires (e : encoder) (b : Z) : bool :=
  (BUFFER_THRESHOLD <? bufferedAmount e)%Z && (0 <=? b)%Z
  && (b <=? BUFFER_THRESHOLD)%Z.

Definition drain (e : encoder) (lows : list Z) : encoder :=
  fold_left (fun e b => onbufferedamountlow b e) lows e.

(** Every event of [lows] could fire where it stands. *)
Fixpoint firing (e : encoder) (lows : list Z) : bool :=
  match lows with
  | [] => true
  | b :: lows' => fires e b && firing (onbufferedamountlow b e) lows'
  end.

(** A whole transfer on the sending side. *)
Definition transfer (file : File) (b0 : Z) (lows : list Z) : option encoder :=
  match sendFile file b0 with
  | Some e => Some (drain e lows)
  | None => None
  end.

Definition finished (e : encoder) : bool :=
  (length (chunks e) <=? sentChunks e)%nat.

Definition isFileEnd (f : frame) : bool :=
  match f with
  | Text v =>
      match get_prop v "type" with
      | Some (JStr t) => String.eqb t "file-end"
      | _ => false
      end
  | Binary _ => false
  end.

Definition sentinels (fs : list frame) : nat :=
  length (filter (fun f => isFileEnd f = true) fs).

(** *** The receiving side *)

(** The three variables of [createFileReceiver]. *)
Record fileReceiver : Type := FileReceiver {
  fileMetadata : option json;
  receivedChunks : list (list Byte.byte);
  receivedBytes : Z
}.

Definition createFileReceiver : fileReceiver := FileReceiver None [] 0.

(** What [handleMessage] is called with: a string, given by what
    [JSON.parse] does with it ([None]: it throws), or an [ArrayBuffer]. *)
Inductive data : Type :=
| DString (parsed : option json)
| DBinary (b : list Byte.byte).

(** The [File] handed to [onComplete]: the bytes of the [Blob] and the two
    values given to the constructors as name and type. *)
Record received_file : Type := Received {
  blob : list Byte.byte;
  fileName : value;
  fileType : value
}.

Inductive callback : Type :=
| OnMetadata (message : json)
| OnProgress (received : Z) (total : value)
| OnComplete (file : received_file).

Inductive exception : Type := SyntaxError | TypeError.

Inductive result : Type :=
| Handled (r : fileReceiver) (calls : list callback)
| Throws (e : exception).

(** [handleMessage(data)]; the three callbacks are taken to return. *)
Definition handleMessage (r : fileReceiver) (d : data) : result :=
  match d with
  | DString None => Throws SyntaxError
  | DString (Some JNull) => Throws TypeError
  | DString (Some message) =>
      match get_prop message "type" with
      | Some (JStr t) =>
          if String.eqb t "file-meta" then
            Handled
              (FileReceiver (Some message) (receivedChunks r)
                 (receivedBytes r))
              [OnMetadata message]
          else if String.eqb t "file-end" then
            match fileMetadata r with
            | None => Throws TypeError
            | Some m =>
                Handled (FileReceiver None [] 0)
                  [OnComplete
                     (Received (concat (receivedChunks r))
                        (get_prop m "name") (get_prop m "mimeType"))]
            end
          else Handled r []
      | _ => Handled r []
      end
  | DBinary b =>
      let received := (receivedBytes r + Z.of_nat (length b))%Z in
      Handled (FileReceiver (fileMetadata r) (receivedChunks r ++ [b]) received)
        match fileMetadata r with
        | Some m => [OnProgress received (get_prop m "size")]
        | None => []
        end
  end.

Inductive observed : Type :=
| Call (c : callback)
| Uncaught (e : exception).

(** The messages of a channel, one event each: a handler that throws
    leaves the three variables as they were and the next message is
    handled all the same. *)
Fixpoint feed (r : fileReceiver) (ds : list data)
  : fileReceiver * list observed :=
  match ds with
  | [] => (r, [])
  | d :: ds' =>
      match handleMessage r d with
      | Handled r' calls =>
          let '(r'', obs) := feed r' ds' in (r'', (map Call calls ++ obs)%list)
      | Throws e =>
          let '(r'', obs) := feed r ds' in (r'', Uncaught e :: obs)
      end
  end.

(** The channel is ordered and reliable; a string arrives as the text it
    was sent as, and [JSON.parse] reads back what [JSON.stringify] wrote. *)
Definition deliver (f : frame) : data :=
  match f with
  | Text v => DString (Some v)
  | Binary b => DBinary b
  end.

(** *** Words of the specification, over the transfer *)

(** The chunk at index [i] of a buffer cut into frames of [f] bytes: the
    [f] bytes from offset [i * f], or what is left of the buffer there. *)
Definition chunkAt (f : nat) (buf : list Byte.byte) (i : nat)
  : list Byte.byte :=
  take f (drop (i * f) buf).

(** The frames of a transfer of [file] cut into [cs]: the metadata, the
    first [s] chunks, [k] sentinels. *)
Definition framesOf (file : File) (cs : list (list Byte.byte)) (s k : nat)
  : list frame :=
  Text (metadata file) :: map Binary (take s cs) ++ replicate k (Text fileEnd).

(** The sending side between two calls of [sendNextChunk], for [file] cut
    into [cs], with [k] sentinels sent; a sentinel has been sent exactly
    when every chunk has. *)
Definition sending (file : File) (cs : list (list Byte.byte)) (k : nat)
    (e : encoder) : Prop :=
  chunks e = cs
  /\ (sentChunks e <= length cs)%nat
  /\ wire e = framesOf file cs (sentChunks e) k
  /\ ((1 <= k)%nat <-> sentChunks e = length cs)
  /\ total e = size file
  /\ sentBytes e = Z.of_nat (length (concat (take (sentChunks e) cs))).

Definition isUncaught (o : observed) : bool :=
  match o with
  | Uncaught _ => true
  | Call _ => false
  end.

(** The [onProgress] calls for the binary frames [bs] arriving after
    [received] bytes, under a declared size [total]. *)
Fixpoint progressCalls (received : Z) (total : value)
    (bs : list (list Byte.byte)) : list observed :=
  match bs with
  | [] => []
  | b :: bs' =>
      let received' := (received + Z.of_nat (length b))%Z in
      Call (OnProgress received' total) :: progressCalls received' total bs'
  end.

Definition isMetadata (m : json) : Prop :=
  get_prop m "type" = str "file-meta".

(** A file of five full chunks. *)
Definition fiveChunks : File :=
  MkFile "five.bin" "" (replicate (5 * CHUNK_SIZE) Byte.x00).

(** A file of forty bytes, numbered from 0. *)
Definition fortyBytes : list Byte.byte :=
  map (fun i => default Byte.x00 (Byte.of_nat i)) (seq 0 40).

Definition forty : File := MkFile "forty.bin" "text/plain" fortyBytes.

(** A file of five full chunks and five bytes more. *)
Definition sixChunks : File :=
  MkFile "six.bin" "" (replicate (5 * CHUNK_SIZE + 5) Byte.x01).


End Transfer.

Import Transfer.

(** ** The code field of the receive page *)

Module Pages.

(** A string of the pages is held as its bytes; the functions below look
    at ASCII digits only, which are one byte each and no part of any other
    character. *)

(** [\d] *)
Definition isDigit (c : Ascii.ascii) : bool :=
  ((48 <=? Ascii.nat_of_ascii c) && (Ascii.nat_of_ascii c <=? 57))%nat.

(** [value.replace(/\D/g, '')] *)
Fixpoint removeNonDigits (value : string) : string :=
  match value with
  | EmptyString => EmptyString
  | String c rest =>
      if isDigit c then String c (removeNonDigits rest)
      else removeNonDigits rest
  end.

(** [handleCodeChange]: what it stores as [inputCode] for a field that
    holds [value]. *)
Definition handleCodeChange (value : string) : string :=
  String.substring 0 4 (removeNonDigits value).

(** [/^\d{4}$/.test(inputCode)] *)
Definition fourDigits (inputCode : string) : bool :=
  match inputCode with
  | String a (String b (String c (String d EmptyString))) =>
      isDigit a && isDigit b && isDigit c && isDigit d
  | _ => false
  end.

(** The guard of [handleConnect]: [true] when it goes on to connect and
    to send [join-room], [false] when it stops with "Please enter a valid
    4-digit code". *)
Definition handleConnect_accepts (inputCode : string) : bool :=
  negb (negb (String.length inputCode =? 4)%nat
        || negb (fourDigits inputCode)).

(** The [join-room] message [handleConnect] sends for an accepted code. *)
Definition joinRequest (inputCode : string) : option json :=
  if handleConnect_accepts inputCode then Some (joinRoom inputCode) else None.

Fixpoint allDigits (s : string) : bool :=
  match s with
  | EmptyString => true
  | String c rest => isDigit c && allDigits rest
  end.

End Pages.

Import Pages.

(** ** More words for the facts below *)

(** A code the receive page takes as it is: the guard of [handleConnect]
    lets it pass and [handleCodeChange] leaves it alone. *)
Definition codeOk (s : string) : bool :=
  handleConnect_accepts s && String.eqb (handleCodeChange s) s
  && (String.length s =? 4)%nat.

(** The connection an event belongs to. *)
Definition conn_of (ev : event) : conn :=
  match ev with
  | Connection ws | Message ws _ _ | Close ws => ws
  end.

Definition isClose (ev : event) : bool :=
  match ev with
  | Close _ => true
  | _ => false
  end.

(** The code of a closure and its role are [null] together. *)
Definition vars_together (st : server) : Prop :=
  forall ws c,
    clients st !! ws = Some c ->
    (currentCode c = None <-> currentRole c = None).

(** The sockets a room holds are sockets the server has seen connect. *)
Definition members_known (st : server) : Prop :=
  forall code rm,
    rooms st !! code = Some rm ->
    is_Some (clients st !! sender rm)
    /\ forall p, receiver rm = Some p -> is_Some (clients st !! p).

(** [p] fills a slot of [rm]. *)
Definition holds (rm : room) (p : conn) : Prop :=
  p = sender rm \/ receiver rm = Some p.

(** The [(sent, total)] reports for the chunks [cs] sent after [sent]
    bytes. *)
Fixpoint runningTotals (sent total : Z) (cs : list (list Byte.byte))
  : list (Z * Z) :=
  match cs with
  | [] => []
  | c :: cs' =>
      let sent' := (sent + Z.of_nat (length c))%Z in
      (sent', total) :: runningTotals sent' total cs'
  end.

(** The sending side between two calls of [sendNextChunk], as to what it
    has counted and reported for [file] cut into [cs]. *)
Definition reporting (file : File) (cs : list (list Byte.byte))
    (e : encoder) : Prop :=
  chunks e = cs
  /\ (sentChunks e <= length cs)%nat
  /\ total e = size file
  /\ sentBytes e = Z.of_nat (length (concat (take (sentChunks e) cs)))
  /\ reports e = runningTotals 0 (size file) (take (sentChunks e) cs).

(** The report after chunk [i] (from 0) of a buffer of [l] bytes cut into
    frames of [f]: the bytes up to the end of that chunk, and the size. *)
Definition reportAt (f l : nat) (i : nat) : Z * Z :=
  (Z.of_nat (Nat.min (S i * f) l), Z.of_nat l).

(** What the receiver counts is what it holds. *)
Definition counted (r : fileReceiver) : Prop :=
  receivedBytes r = Z.of_nat (length (concat (receivedChunks r))).

(** A room of two and an idle third connection. *)
Definition paired_and_third : server :=
  Server {[ "5500" := Room 1 (Some 2) ]}
    {[ 1 := Client OPEN (Some "5500") (Some RSender);
       2 := Client OPEN (Some "5500") (Some RReceiver);
       3 := Client OPEN None None ]}.

(** * Facts *)

Local Open Scope list_scope.

(** ** The signaling server *)

Lemma paired_reachable :
  option_map fst (run ServerJs init
    [Connection 1; Connection 2;
     Message 1 (Some createRoom) [1 # 2];
     Message 2 (Some (joinRoom "5500")) []])
  = Some paired.
Proof. vm_compute. reflexivity. Qed.

Lemma waiting_reachable :
  option_map fst (run ServerNocmtJs init
    [Connection 1; Connection 2; Connection 3;
     Message 1 (Some createRoom) [1 # 2]])
  = Some waiting.
Proof. vm_compute. reflexivity. Qed.

Lemma paired_bound_sender : bound paired 1 "5500" RSender (Room 1 (Some 2)).
Proof.
  split; [|split; [|split]]; [|discriminate|reflexivity|reflexivity].
  exists (Client OPEN (Some "5500") (Some RSender)). by split.
Defined.

Lemma paired_bound_receiver :
  bound paired 2 "5500" RReceiver (Room 1 (Some 2)).
Proof.
  split; [|split; [|split]]; [|discriminate|reflexivity|reflexivity].
  exists (Client OPEN (Some "5500") (Some RReceiver)). by split.
Defined.

(** Only [null] makes the read of [message.type] throw. *)
Lemma on_message_dispatch b draws ws c message st :
  clients st !! ws = Some c ->
  message <> JNull ->
  on_message b draws ws (Some message) st = dispatch b draws ws c message st.
Proof.
  intros Hc Hnull. unfold on_message. rewrite Hc.
  by destruct message.
Qed.

Lemma tag_not_null b message :
  tag_of b (get_prop message "type") <> Unknown -> message <> JNull.
Proof. intros H ->. by apply H. Qed.

Lemma bound_currentRoom st ws code r rm :
  bound st ws code r rm ->
  exists c, clients st !! ws = Some c
            /\ currentRoom st c = Some rm /\ currentRole c = Some r.
Proof.
  intros [(c & Hc & Hcode & Hrole) (Hne & Hrm & _)].
  exists c. split; [done|]. split; [|done].
  unfold currentRoom. rewrite Hcode.
  destruct (String.eqb code "") eqn:E; [|done].
  by apply String.eqb_eq in E.
Qed.

Lemma elem_of_sendIfPresent st peer message p m :
  (p, m) ∈ sendIfPresent st peer message ->
  peer = Some p /\ is_open st p = true /\ m = message.
Proof.
  destruct peer as [q|]; simpl; [|by intros ?%elem_of_nil].
  unfold sendMessage. destruct (is_open st q) eqn:E;
    [|by intros ?%elem_of_nil].
  intros [= -> ->]%list_elem_of_singleton. done.
Qed.

Lemma relayed_payload t message f :
  f ∈ payloadFields t -> get_prop (relayed t message) f = get_prop message f.
Proof.
  destruct t; simpl; try by intros ?%elem_of_nil.
  - intros ->%list_elem_of_singleton.
    by destruct (get_prop message "offer").
  - intros ->%list_elem_of_singleton.
    by destruct (get_prop message "answer").
  - intros ->%list_elem_of_singleton.
    by destruct (get_prop message "candidate").
  - rewrite !elem_of_cons, elem_of_nil. intros [->|[->|[->|[]]]];
      by destruct (get_prop message "fileName"),
           (get_prop message "fileSize"), (get_prop message "fileType").
Qed.

Lemma target_expected t r rm :
  expected t r = true -> target t r rm = counterpart r rm.
Proof. by destruct t, r. Qed.

Lemma target_member t r rm ws p :
  slot r rm = Some ws -> target t r rm = Some p ->
  p = sender rm \/ receiver rm = Some p.
Proof. destruct t, r; simpl; intros ? ?; simplify_eq; auto. Qed.

(** C1, as the server has it.  A payload message ([offer], [answer],
    [ice-candidate], [file-meta]) of a connection bound to a room leaves
    the state alone and goes to one slot of that room, chosen by the
    message's type: [offer] and [file-meta] to the receiver slot, [answer]
    to the sender slot, [ice-candidate] to the slot opposite the sender's
    role.  It is sent only when that slot is filled by an open socket and
    dropped without a reply otherwise; what is sent carries the payload
    properties unchanged; nothing goes to a connection outside the room;
    and for the role that sends the type in the protocol the slot is the
    counterpart. *)
Theorem relay_by_type b draws st ws code r rm message t :
  bound st ws code r rm ->
  tag_of b (get_prop message "type") = t ->
  payload t = true ->
  on_message b draws ws (Some message) st
  = Returned st (sendIfPresent st (target t r rm) (relayed t message))
  /\ (forall p m,
        (p, m) ∈ sendIfPresent st (target t r rm) (relayed t message) ->
        (p = sender rm \/ receiver rm = Some p)
        /\ is_open st p = true
        /\ forall f, f ∈ payloadFields t -> get_prop m f = get_prop message f)
  /\ (target t r rm = None ->
      sendIfPresent st (target t r rm) (relayed t message) = [])
  /\ (expected t r = true -> target t r rm = counterpart r rm).
Proof.
  intros Hb Ht Hp.
  destruct (bound_currentRoom _ _ _ _ _ Hb) as (c & Hc & Hroom & Hrole).
  split; [|split; [|split]].
  - rewrite (on_message_dispatch _ _ _ c) by
      (done || (apply (tag_not_null b); rewrite Ht; by destruct t)).
    unfold dispatch. rewrite Ht.
    destruct t; try discriminate; rewrite Hroom; try done.
    rewrite Hrole. by destruct r.
  - intros p m (Htgt & Hopen & ->)%elem_of_sendIfPresent.
    destruct Hb as (_ & _ & _ & Hslot).
    split; [by eapply target_member|]. split; [done|].
    intros f Hf. by apply relayed_payload.
  - by intros ->.
  - apply target_expected.
Qed.

(** The statement of C1 fails for an [offer] sent by the receiver of a
    room: the server hands it to the receiver slot, which is the sender of
    the message, and the counterpart gets nothing. *)
Lemma offer_of_receiver_comes_back :
  ~ relays_to_counterpart ServerJs paired 2
      (obj [("type", str "offer"); ("offer", str "sdp")]).
Proof.
  intros H.
  specialize (H [] "5500" RReceiver (Room 1 (Some 2)) paired_bound_receiver
                eq_refl).
  vm_compute in H. discriminate H.
Qed.

Lemma relay_by_type_witness :
  on_message ServerNocmtJs [] 1
    (Some (obj [("type", str "offer"); ("offer", str "sdp")])) paired
  = Returned paired [(2, obj [("type", str "offer"); ("offer", str "sdp")])].
Proof.
  exact (proj1 (relay_by_type ServerNocmtJs [] paired 1 "5500" RSender
                  (Room 1 (Some 2))
                  (obj [("type", str "offer"); ("offer", str "sdp")]) Offer
                  paired_bound_sender eq_refl eq_refl)).
Defined.

(** *** Joining a room *)

Lemma is_open_setClient st ws c p :
  is_open (setClient st ws c) p
  = if decide (p = ws)
    then match readyState c with OPEN => true | _ => false end
    else is_open st p.
Proof.
  unfold is_open, setClient; simpl.
  destruct (decide (p = ws)) as [->|Hne].
  - by rewrite lookup_insert_eq.
  - by rewrite lookup_insert_ne.
Qed.

Lemma is_open_setRoom st code rm p :
  is_open (setRoom st code rm) p = is_open st p.
Proof. done. Qed.

(** Rebinding a connection keeps every socket's [readyState]. *)
Lemma is_open_rebind st ws c code r p :
  clients st !! ws = Some c ->
  is_open (setClient st ws (Client (readyState c) code r)) p = is_open st p.
Proof.
  intros Hc. rewrite is_open_setClient. destruct (decide (p = ws)) as [->|];
    [|done].
  unfold is_open. by rewrite Hc.
Qed.

Lemma is_open_client st ws :
  is_open st ws = true -> exists c, clients st !! ws = Some c.
Proof. unfold is_open. destruct (clients st !! ws); [eauto|done]. Qed.

Lemma tag_join b : tag_of b (str "join-room") = JoinRoom.
Proof. by destruct b. Qed.

Lemma on_message_join b draws ws c message st :
  clients st !! ws = Some c ->
  get_prop message "type" = str "join-room" ->
  on_message b draws ws (Some message) st
  = match roomOfKey st (get_prop message "code") with
    | None =>
        Returned st
          (sendMessage st ws (errorMessage "Invalid code. No room found."))
    | Some (code, rm) =>
        match receiver rm with
        | Some _ =>
            Returned st
              (sendMessage st ws
                 (errorMessage "Room is full. Someone already joined."))
        | None =>
            let st' :=
              setClient (setRoom st code (Room (sender rm) (Some ws))) ws
                (Client (readyState c) (Some code) (Some RReceiver)) in
            Returned st'
              (sendMessage st ws
                 (obj [("type", str "room-joined");
                       ("code", get_prop message "code")])
               ++ sendMessage st (sender rm)
                    (obj [("type", str "peer-joined")]))
        end
    end.
Proof.
  intros Hc Ht.
  rewrite (on_message_dispatch _ _ _ c); [|done|by intros ->].
  unfold dispatch. rewrite Ht, tag_join.
  destruct (roomOfKey st (get_prop message "code")) as [[code rm]|]; [|done].
  destruct (receiver rm); [done|]. simpl.
  unfold sendMessage. by rewrite !is_open_rebind.
Qed.

Lemma joinRoom_type code : get_prop (joinRoom code) "type" = str "join-room".
Proof. done. Qed.

Lemma joinRoom_code code : get_prop (joinRoom code) "code" = str code.
Proof. done. Qed.

(** Every join of a full room is refused and changes nothing. *)
Lemma joins_of_full_room b code rm p wss st :
  rooms st !! code = Some rm ->
  receiver rm = Some p ->
  Forall (fun w => is_open st w = true) wss ->
  run b st (joins code wss)
  = Some (st,
          map (fun w =>
                 [(w, errorMessage "Room is full. Someone already joined.")])
            wss).
Proof.
  intros Hrm Hp. induction 1 as [|w wss Hw _ IH]; [done|].
  destruct (is_open_client _ _ Hw) as [c Hc].
  simpl. rewrite (on_message_join _ _ _ c) by done.
  rewrite joinRoom_code. simpl. rewrite Hrm, Hp.
  fold (joins code wss). rewrite IH.
  unfold sendMessage. by rewrite Hw.
Qed.

(** C3.  A [join-room] request of an open connection is answered in one
    of three ways.  When its code names no room of the registry, the
    requester gets the error "Invalid code. No room found." and nothing
    changes.  When the room's receiver slot is taken, the requester gets
    the error "Room is full. Someone already joined." and nothing changes.
    Otherwise the requester is written into the receiver slot, becomes
    bound to the code as receiver, gets [room-joined] with the code, and
    the room's sender gets [peer-joined].  So of any run of join requests
    for one waiting room the first is accepted and every later one is
    refused as full. *)
Theorem join_room_first_wins b draws st ws message :
  is_open st ws = true ->
  get_prop message "type" = str "join-room" ->
  ((forall code, get_prop message "code" = str code ->
                 rooms st !! code = None) ->
   on_message b draws ws (Some message) st
   = Returned st [(ws, errorMessage "Invalid code. No room found.")])
  /\ (forall code rm p,
        get_prop message "code" = str code ->
        rooms st !! code = Some rm ->
        receiver rm = Some p ->
        on_message b draws ws (Some message) st
        = Returned st
            [(ws, errorMessage "Room is full. Someone already joined.")])
  /\ (forall code rm,
        get_prop message "code" = str code ->
        rooms st !! code = Some rm ->
        receiver rm = None ->
        exists st',
          on_message b draws ws (Some message) st
          = Returned st'
              ((ws, obj [("type", str "room-joined"); ("code", str code)])
               :: sendMessage st (sender rm)
                    (obj [("type", str "peer-joined")]))
          /\ rooms st' = <[code := Room (sender rm) (Some ws)]> (rooms st)
          /\ (exists c, clients st' !! ws = Some c
                        /\ currentCode c = Some code
                        /\ currentRole c = Some RReceiver)
          /\ forall w, w <> ws -> clients st' !! w = clients st !! w)
  /\ (forall code rm wss,
        rooms st !! code = Some rm ->
        receiver rm = None ->
        Forall (fun w => is_open st w = true) wss ->
        exists st',
          run b st (joins code (ws :: wss))
          = Some (st',
                  ((ws, obj [("type", str "room-joined"); ("code", str code)])
                   :: sendMessage st (sender rm)
                        (obj [("type", str "peer-joined")]))
                  :: map (fun w =>
                            [(w, errorMessage
                                   "Room is full. Someone already joined.")])
                       wss)
          /\ rooms st' !! code = Some (Room (sender rm) (Some ws))).
Proof.
  intros Hopen Ht. destruct (is_open_client _ _ Hopen) as [c Hc].
  assert (Hsend : forall m, sendMessage st ws m = [(ws, m)]).
  { intros m. unfold sendMessage. by rewrite Hopen. }
  split; [|split; [|split]].
  - intros Hnone. rewrite (on_message_join _ _ _ c) by done.
    unfold roomOfKey.
    destruct (get_prop message "code") as [[| | |code| |]|] eqn:E;
      rewrite ?Hsend; try done.
    by rewrite (Hnone code eq_refl).
  - intros code rm p Hcode Hrm Hp. rewrite (on_message_join _ _ _ c) by done.
    rewrite Hcode. simpl. by rewrite Hrm, Hp, Hsend.
  - intros code rm Hcode Hrm Hnone. eexists.
    rewrite (on_message_join _ _ _ c) by done.
    rewrite Hcode. simpl. rewrite Hrm, Hnone, Hsend. simpl.
    split; [reflexivity|]. unfold setClient, setRoom; simpl.
    split; [done|]. split.
    + eexists. rewrite lookup_insert_eq. by split.
    + intros w Hw. by rewrite lookup_insert_ne.
  - intros code rm wss Hrm Hnone Hwss.
    set (st' := setClient (setRoom st code (Room (sender rm) (Some ws))) ws
                  (Client (readyState c) (Some code) (Some RReceiver))).
    exists st'. simpl.
    rewrite (on_message_join _ _ _ c) by done.
    rewrite joinRoom_code. simpl. rewrite Hrm, Hnone, Hsend.
    fold (joins code wss). fold st'.
    rewrite (joins_of_full_room b code (Room (sender rm) (Some ws)) ws).
    + split; [done|]. apply lookup_insert_eq.
    + apply lookup_insert_eq.
    + done.
    + eapply Forall_impl; [exact Hwss|]. intros w Hw. simpl in Hw.
      unfold st'. by rewrite is_open_rebind.
Qed.

Lemma join_room_first_wins_witness :
  exists st',
    run ServerNocmtJs waiting (joins "5500" [2; 3])
    = Some (st',
            [[(2, obj [("type", str "room-joined"); ("code", str "5500")]);
              (1, obj [("type", str "peer-joined")])];
             [(3, errorMessage "Room is full. Someone already joined.")]])
    /\ rooms st' !! "5500" = Some (Room 1 (Some 2)).
Proof.
  refine (proj2 (proj2 (proj2
            (join_room_first_wins ServerNocmtJs [] waiting 2 (joinRoom "5500")
               eq_refl eq_refl))) "5500" (Room 1 None) [3] eq_refl eq_refl _).
  repeat constructor.
Defined.

(** *** What a message can change *)

Lemma generateUniqueCode_fresh rs draws code :
  generateUniqueCode rs draws = Some code ->
  rs !! code = None /\ exists r, r ∈ draws /\ code = generateCode r.
Proof.
  induction draws as [|r draws IH]; [done|]. simpl.
  destruct (decide (is_Some (rs !! generateCode r))) as [|Hfree].
  - intros [? (r' & ? & ?)]%IH. split; [done|]. exists r'.
    split; [apply elem_of_cons; by right|done].
  - intros [= <-]. split.
    + by apply eq_None_not_Some.
    + exists r. split; [apply elem_of_cons; by left|done].
Qed.

(** The loop of [generateUniqueCode] ends as soon as a draw gives a code
    that is free. *)
Lemma generateUniqueCode_returns rs draws r :
  r ∈ draws -> rs !! generateCode r = None ->
  is_Some (generateUniqueCode rs draws).
Proof.
  intros Hr Hfree. induction draws as [|r' draws IH];
    [by apply elem_of_nil in Hr|]. simpl.
  destruct (decide (is_Some (rs !! generateCode r'))) as [|]; [|by eexists].
  apply elem_of_cons in Hr as [->|Hr]; [|by apply IH].
  rewrite Hfree in *. by destruct (is_Some_None (A:=room)).
Qed.

(** A case of the [switch] that only looks up the caller's room and
    sends: the state is returned as it came. *)
Ltac forwards_only st c :=
  destruct (currentRoom st c); intros [= <- _]; by left.

(** A message handler that returns has left the state as it was, or has
    made a room for a free code and bound the caller to it as sender, or
    has put the caller into the empty receiver slot of a room and bound it
    to that room as receiver. *)
Lemma on_message_effect b draws ws data st st' out :
  on_message b draws ws data st = Returned st' out ->
  st' = st
  \/ (exists message c code,
        data = Some message /\ clients st !! ws = Some c
        /\ tag_of b (get_prop message "type") = CreateRoom
        /\ generateUniqueCode (rooms st) draws = Some code
        /\ st' = setClient (setRoom st code (Room ws None)) ws
                   (Client (readyState c) (Some code) (Some RSender)))
  \/ (exists message c code rm,
        data = Some message /\ clients st !! ws = Some c
        /\ tag_of b (get_prop message "type") = JoinRoom
        /\ get_prop message "code" = str code
        /\ rooms st !! code = Some rm /\ receiver rm = None
        /\ st' = setClient (setRoom st code (Room (sender rm) (Some ws))) ws
                   (Client (readyState c) (Some code) (Some RReceiver))).
Proof.
  unfold on_message.
  destruct (clients st !! ws) as [c|] eqn:Hc; [|intros [= <- _]; by left].
  destruct data as [message|]; [|intros [= <- _]; by left].
  assert (dispatch b draws ws c message st = Returned st' out ->
          st' = st
          \/ (exists message0 c0 code,
                Some message = Some message0 /\ Some c = Some c0
                /\ tag_of b (get_prop message0 "type") = CreateRoom
                /\ generateUniqueCode (rooms st) draws = Some code
                /\ st' = setClient (setRoom st code (Room ws None)) ws
                           (Client (readyState c0) (Some code) (Some RSender)))
          \/ (exists message0 c0 code rm,
                Some message = Some message0 /\ Some c = Some c0
                /\ tag_of b (get_prop message0 "type") = JoinRoom
                /\ get_prop message0 "code" = str code
                /\ rooms st !! code = Some rm /\ receiver rm = None
                /\ st' = setClient
                           (setRoom st code (Room (sender rm) (Some ws))) ws
                           (Client (readyState c0) (Some code)
                              (Some RReceiver)))) as Hd.
  { unfold dispatch.
    destruct (tag_of b (get_prop message "type")) eqn:Ht.
    - destruct (generateUniqueCode (rooms st) draws) as [code|] eqn:Hg;
        [|done].
      intros [= <- _]. right; left. by exists message, c, code.
    - unfold roomOfKey.
      destruct (get_prop message "code") as [[| | |code| |]|] eqn:Hcode;
        try (intros [= <- _]; by left).
      destruct (rooms st !! code) as [rm|] eqn:Hrm;
        [|intros [= <- _]; by left].
      destruct (receiver rm) eqn:Hrcv; [intros [= <- _]; by left|].
      intros [= <- _]. right; right. by exists message, c, code, rm.
    - forwards_only st c.
    - forwards_only st c.
    - forwards_only st c.
    - forwards_only st c.
    - forwards_only st c.
    - intros [= <- _]; by left. }
  destruct message; try exact Hd. done.
Qed.

(** No message takes a code out of the registry or a room's receiver out
    of its slot. *)
Lemma on_message_keeps_rooms b draws ws data st st' out code rm :
  on_message b draws ws data st = Returned st' out ->
  rooms st !! code = Some rm ->
  exists rm', rooms st' !! code = Some rm'
              /\ sender rm' = sender rm
              /\ (is_Some (receiver rm) -> receiver rm' = receiver rm).
Proof.
  intros [->|[H|H]]%on_message_effect Hrm.
  - by exists rm.
  - destruct H as (m & c & code' & _ & _ & _ & Hfree & ->). simpl.
    apply generateUniqueCode_fresh in Hfree as [Hfree _].
    exists rm. rewrite lookup_insert_ne; [done|]. by intros ->; simplify_eq.
  - destruct H as (m & c & code' & rm0 & _ & _ & _ & _ & Hrm0 & Hrcv & ->).
    simpl. destruct (decide (code' = code)) as [->|Hne].
    + rewrite lookup_insert_eq. simplify_eq. eexists. split; [done|].
      split; [done|]. rewrite Hrcv. by intros [? ?].
    + exists rm. by rewrite lookup_insert_ne.
Qed.

(** *** Room codes *)

Lemma pretty_N_go_nonempty (x : N) (s : string) :
  s <> "" -> pretty_N_go x s <> "".
Proof.
  revert s. induction (N.lt_wf_0 x) as [x _ IH]; intros s Hs.
  destruct (decide (x = 0)%N) as [->|Hx]; [by rewrite pretty_N_go_0|].
  rewrite pretty_N_go_step by lia. apply IH; [apply N.div_lt; lia|done].
Qed.

Lemma pretty_Z_nonempty (z : Z) : pretty z <> "".
Proof.
  destruct z as [|x|x]; [done| |done].
  unfold pretty, pretty_Z, pretty, pretty_positive, pretty, pretty_N.
  rewrite decide_False by done. rewrite pretty_N_go_step by lia.
  by apply pretty_N_go_nonempty.
Qed.

(** A code made by [generateCode] is never the empty string, so it passes
    the test [currentCode && ...]. *)
Lemma generateCode_nonempty (r : Q) : generateCode r <> "".
Proof. apply pretty_Z_nonempty. Qed.

(** **** Rounding to doubles *)

Section Doubles.

Local Open Scope Q_scope.

Lemma pow2_pos (e : Z) : 0 < pow2 e.
Proof. by apply Qpower_0_lt. Qed.

Lemma pow2_add (a b : Z) : pow2 (a + b) == pow2 a * pow2 b.
Proof. by apply Qpower_plus. Qed.

Lemma pow2_nat (a : Z) : (0 <= a)%Z -> pow2 a == inject_Z (2 ^ a).
Proof. intros Ha. unfold pow2. by rewrite (Zpower_Qpower 2 a Ha). Qed.

Lemma pow2_lt_inv (a b : Z) : pow2 a < pow2 b -> (a < b)%Z.
Proof. intros H. by apply (Qpower_lt_compat_l_inv 2). Qed.

Lemma exponent_spec (x : Q) :
  0 < x -> pow2 (exponent x) <= x /\ x < pow2 (exponent x + 1).
Proof.
  destruct x as [n d]. intros Hx.
  assert (0 < n)%Z as Hn by (unfold Qlt in Hx; simpl in Hx; lia).
  pose proof (Z.log2_spec n Hn) as [Hn1 Hn2].
  pose proof (Z.log2_spec (Zpos d) (Pos2Z.is_pos d)) as [Hd1 Hd2].
  pose proof (Z.log2_nonneg n) as Ha.
  pose proof (Z.log2_nonneg (Zpos d)) as Hb.
  unfold exponent. cbn [Qnum Qden].
  set (a := Z.log2 n) in *. set (b := Z.log2 (Zpos d)) in *.
  assert (n # d < pow2 (a - b + 1)) as Hup.
  { replace (a - b + 1)%Z with (Z.succ a - b)%Z by lia.
    unfold pow2. rewrite Qpower_minus by done.
    fold (pow2 (Z.succ a)); fold (pow2 b).
    rewrite !pow2_nat by lia.
    apply Qlt_shift_div_l.
    - rewrite <- (Zlt_Qlt 0). lia.
    - unfold Qlt, Qmult, inject_Z; cbn [Qnum Qden]. nia. }
  assert (pow2 (a - b - 1) <= n # d) as Hlow.
  { replace (a - b - 1)%Z with (a - Z.succ b)%Z by lia.
    unfold pow2. rewrite Qpower_minus by done.
    fold (pow2 (Z.succ b)); fold (pow2 a).
    rewrite !pow2_nat by lia.
    apply Qle_shift_div_r.
    - rewrite <- (Zlt_Qlt 0). lia.
    - unfold Qle, Qmult, inject_Z; cbn [Qnum Qden]. nia. }
  destruct (Qle_bool (pow2 (a - b)) (n # d)) eqn:E.
  - apply Qle_bool_iff in E. done.
  - split; [done|]. replace (a - b - 1 + 1)%Z with (a - b)%Z by lia.
    apply Qnot_le_lt. intros H. apply Qle_bool_iff in H. congruence.
Qed.

Lemma exponent_le (x : Q) (E : Z) :
  0 < x -> x < pow2 (E + 1) -> (exponent x <= E)%Z.
Proof.
  intros Hx Hlt. destruct (exponent_spec x Hx) as [Hlo _].
  assert (pow2 (exponent x) < pow2 (E + 1)) as H
    by (eapply Qle_lt_trans; eassumption).
  apply pow2_lt_inv in H. lia.
Qed.

Lemma exponent_ge (x : Q) (E : Z) :
  0 < x -> pow2 E <= x -> (E <= exponent x)%Z.
Proof.
  intros Hx Hle. destruct (exponent_spec x Hx) as [_ Hhi].
  assert (pow2 E < pow2 (exponent x + 1)) as H
    by (eapply Qle_lt_trans; eassumption).
  apply pow2_lt_inv in H. lia.
Qed.

Lemma nearestEven_cases (q : Q) :
  nearestEven q = Qfloor q \/ nearestEven q = (Qfloor q + 1)%Z.
Proof.
  unfold nearestEven.
  destruct (q - inject_Z (Qfloor q) ?= 1 # 2); [|auto..].
  destruct (Z.even (Qfloor q)); auto.
Qed.

Lemma nearestEven_le (q : Q) (K : Z) :
  q <= inject_Z K -> (nearestEven q <= K)%Z.
Proof.
  intros Hq. pose proof (Qfloor_le q) as Hf.
  assert (Qfloor q <= K)%Z as HfK.
  { rewrite Zle_Qle. by apply (Qle_trans _ q). }
  unfold nearestEven.
  destruct (Qcompare_spec (q - inject_Z (Qfloor q)) (1 # 2)) as [H|H|H].
  - assert (inject_Z (Qfloor q) < inject_Z K) as Hlt by lra.
    rewrite <- Zlt_Qlt in Hlt. destruct (Z.even (Qfloor q)); lia.
  - done.
  - assert (inject_Z (Qfloor q) < inject_Z K) as Hlt by lra.
    rewrite <- Zlt_Qlt in Hlt. lia.
Qed.

Lemma nearestEven_ge (q : Q) (K : Z) :
  inject_Z K <= q -> (K <= nearestEven q)%Z.
Proof.
  intros Hq. apply Qfloor_resp_le in Hq. rewrite Qfloor_Z in Hq.
  destruct (nearestEven_cases q) as [-> | ->]; lia.
Qed.

Lemma nearestEven_below_half (q : Q) (K : Z) :
  q < inject_Z K - (1 # 2) -> (nearestEven q <= K - 1)%Z.
Proof.
  intros Hq. pose proof (Qfloor_le q) as Hf.
  assert (inject_Z (Qfloor q) < inject_Z K) as HfK by lra.
  rewrite <- Zlt_Qlt in HfK.
  unfold nearestEven.
  destruct (Qcompare_spec (q - inject_Z (Qfloor q)) (1 # 2)) as [H|H|H].
  - assert (inject_Z (Qfloor q + 1) < inject_Z K) as Hlt
      by (rewrite inject_Z_plus; change (inject_Z 1) with 1; lra).
    rewrite <- Zlt_Qlt in Hlt.
    destruct (Z.even (Qfloor q)); lia.
  - lia.
  - assert (inject_Z (Qfloor q + 1) < inject_Z K) as Hlt
      by (rewrite inject_Z_plus; change (inject_Z 1) with 1; lra).
    rewrite <- Zlt_Qlt in Hlt. lia.
Qed.

Lemma binary64_pos (x : Q) :
  0 < x -> binary64 x = inject_Z (nearestEven (x / ulp x)) * ulp x.
Proof.
  intros Hx. unfold binary64.
  destruct (Qcompare_spec x 0) as [H|H|H]; [lra|lra|done].
Qed.

Lemma binary64_zero (x : Q) : x == 0 -> binary64 x = 0.
Proof.
  intros Hx. unfold binary64.
  destruct (Qcompare_spec x 0) as [H|H|H]; [done|lra|lra].
Qed.

Lemma ulp_pos (x : Q) : 0 < ulp x.
Proof. apply pow2_pos. Qed.

(** Rounding does not step over a number of the grid around [x]. *)
Lemma binary64_le_grid (x : Q) (M : Z) :
  0 < x -> x <= inject_Z M * ulp x -> binary64 x <= inject_Z M * ulp x.
Proof.
  intros Hx Hle. rewrite binary64_pos by done.
  pose proof (ulp_pos x) as Hu.
  apply Qmult_le_compat_r; [|lra].
  rewrite <- Zle_Qle. apply nearestEven_le.
  by apply Qle_shift_div_r.
Qed.

Lemma binary64_ge_grid (x : Q) (M : Z) :
  0 < x -> inject_Z M * ulp x <= x -> inject_Z M * ulp x <= binary64 x.
Proof.
  intros Hx Hle. rewrite binary64_pos by done.
  pose proof (ulp_pos x) as Hu.
  apply Qmult_le_compat_r; [|lra].
  rewrite <- Zle_Qle. apply nearestEven_ge.
  by apply Qle_shift_div_l.
Qed.

Lemma binary64_below_half (x : Q) (M : Z) :
  0 < x -> x < (inject_Z M - (1 # 2)) * ulp x ->
  binary64 x <= inject_Z (M - 1) * ulp x.
Proof.
  intros Hx Hlt. rewrite binary64_pos by done.
  pose proof (ulp_pos x) as Hu.
  apply Qmult_le_compat_r; [|lra].
  rewrite <- Zle_Qle. apply nearestEven_below_half.
  by apply Qlt_shift_div_r.
Qed.

(** A multiple of [2 ^ j] is on the grid around [x] when the exponent of
    [x] is at most [j + 52]. *)
Lemma on_grid (x : Q) (K j : Z) :
  (Z.max (exponent x) (-1022) - 52 <= j)%Z ->
  exists M, inject_Z K * pow2 j == inject_Z M * ulp x.
Proof.
  intros Hj. set (k := (Z.max (exponent x) (-1022) - 52)%Z) in *.
  exists (K * 2 ^ (j - k))%Z. unfold ulp. fold k.
  replace j with ((j - k) + k)%Z at 1 by lia.
  rewrite pow2_add, pow2_nat by lia. rewrite inject_Z_mult. ring.
Qed.

Lemma binary64_le (x : Q) (K j : Z) :
  0 < x ->
  (Z.max (exponent x) (-1022) - 52 <= j)%Z ->
  x <= inject_Z K * pow2 j -> binary64 x <= inject_Z K * pow2 j.
Proof.
  intros Hx Hj. destruct (on_grid x K j Hj) as [M ->].
  by apply binary64_le_grid.
Qed.

Lemma binary64_ge (x : Q) (K j : Z) :
  0 < x ->
  (Z.max (exponent x) (-1022) - 52 <= j)%Z ->
  inject_Z K * pow2 j <= x -> inject_Z K * pow2 j <= binary64 x.
Proof.
  intros Hx Hj. destruct (on_grid x K j Hj) as [M ->].
  by apply binary64_ge_grid.
Qed.

Lemma binary64_nonneg (x : Q) : 0 <= x -> 0 <= binary64 x.
Proof.
  intros Hx. destruct (Qlt_le_dec 0 x) as [Hpos|Hle].
  - assert (inject_Z 0 * ulp x <= binary64 x) as H.
    { apply binary64_ge_grid; [done|]. change (inject_Z 0) with 0. lra. }
    change (inject_Z 0) with 0 in H. lra.
  - rewrite binary64_zero; lra.
Qed.

Lemma pow2_m39 : pow2 (-39) == 1 # 549755813888.
Proof. reflexivity. Qed.

Lemma pow2_m53 : pow2 (-53) == 1 # 9007199254740992.
Proof. reflexivity. Qed.

(** [Math.random() * 9000] stays a spacing below 9000. *)
Lemma product_bound (r : Q) :
  0 <= r -> r <= 1 - pow2 (-53) ->
  0 <= binary64 (r * 9000) <= 9000 - pow2 (-39).
Proof.
  intros H0 H1. rewrite pow2_m53 in H1. rewrite pow2_m39.
  split; [apply binary64_nonneg; lra|].
  destruct (Qlt_le_dec 0 (r * 9000)) as [Hpos|Hle];
    [|rewrite binary64_zero; lra].
  set (x := r * 9000) in *.
  destruct (Qlt_le_dec x 8192) as [Hsmall|Hbig].
  - assert (binary64 x <= inject_Z 8192 * pow2 0) as H.
    { apply binary64_le; [done| |].
      - assert (exponent x <= 12)%Z; [|lia].
        apply exponent_le; [done|]. exact Hsmall.
      - change (inject_Z 8192 * pow2 0) with (8192 * 1). lra. }
    change (inject_Z 8192 * pow2 0) with (8192 * 1) in H. lra.
  - assert (exponent x = 13%Z) as He.
    { apply Z.le_antisymm.
      - apply exponent_le; [done|].
        change (pow2 (13 + 1)) with (inject_Z 16384).
        change (inject_Z 16384) with 16384. unfold x. lra.
      - apply exponent_ge; [done|]. exact Hbig. }
    pose proof (binary64_below_half x (9000 * 2 ^ 39) Hpos) as H.
    unfold ulp in H. rewrite He in H.
    change (pow2 (Z.max 13 (-1022) - 52)) with (pow2 (-39)) in H.
    rewrite pow2_m39 in H.
    change (inject_Z (9000 * 2 ^ 39)) with (4947802324992000 # 1) in H.
    change (inject_Z (9000 * 2 ^ 39 - 1)) with (4947802324991999 # 1) in H.
    unfold x in *. lra.
Qed.

(** [1000 + ...] stays a spacing below 10000. *)
Lemma sum_bound (y : Q) :
  0 <= y -> y <= 9000 - pow2 (-39) ->
  1000 <= binary64 (1000 + y) <= 10000 - pow2 (-39).
Proof.
  intros H0 H1. rewrite pow2_m39 in H1.
  set (s := 1000 + y) in *.
  assert (0 < s) as Hpos by (unfold s; lra).
  assert (exponent s <= 13)%Z as He.
  { apply exponent_le; [done|].
    change (pow2 (13 + 1)) with (16384 # 1). unfold s. lra. }
  split.
  - assert (inject_Z 1000 * pow2 0 <= binary64 s) as H.
    { apply binary64_ge; [done|lia|].
      change (inject_Z 1000 * pow2 0) with (1000 * 1). unfold s. lra. }
    change (inject_Z 1000 * pow2 0) with (1000 * 1) in H. lra.
  - assert (binary64 s <= inject_Z (10000 * 2 ^ 39 - 1) * pow2 (-39)) as H.
    { apply binary64_le; [done|lia|]. rewrite pow2_m39.
      change (inject_Z (10000 * 2 ^ 39 - 1)) with (5497558138879999 # 1).
      unfold s. lra. }
    rewrite pow2_m39 in *.
    change (inject_Z (10000 * 2 ^ 39 - 1)) with (5497558138879999 # 1) in H.
    lra.
Qed.

(** A double under 1 is at most the last double under 1. *)
Lemma isDouble_below_one (r : Q) :
  isDouble r -> 0 <= r -> r < 1 -> r <= 1 - pow2 (-53).
Proof.
  intros Hd H0 H1. rewrite pow2_m53.
  destruct (Qlt_le_dec 0 r) as [Hpos|Hle]; [|lra].
  assert (exponent r <= -1)%Z as He.
  { apply exponent_le; [done|]. change (pow2 (-1 + 1)) with 1. done. }
  destruct (Z.eq_dec (exponent r) (-1)%Z) as [Heq|Hne].
  - unfold isDouble in Hd. rewrite binary64_pos in Hd by done.
    unfold ulp in Hd. rewrite Heq in Hd.
    change (pow2 (Z.max (-1) (-1022) - 52)) with (pow2 (-53)) in Hd.
    set (n := nearestEven _) in Hd. rewrite pow2_m53 in Hd.
    assert (inject_Z n < inject_Z 9007199254740992) as Hn.
    { change (inject_Z 9007199254740992) with (9007199254740992 # 1). lra. }
    rewrite <- Zlt_Qlt in Hn.
    assert (inject_Z n <= inject_Z 9007199254740991) as Hn'
      by (rewrite <- Zle_Qle; lia).
    change (inject_Z 9007199254740991) with (9007199254740991 # 1) in Hn'.
    lra.
  - destruct (exponent_spec r Hpos) as [_ Hhi].
    assert (pow2 (exponent r + 1) <= pow2 (-1)) as Hp
      by (apply Qpower_le_compat_l; [lia|done]).
    change (pow2 (-1)) with (1 # 2) in Hp. lra.
Qed.

(** For a draw in the range of [Math.random], a double from 0 up to but
    not 1, the code lies between 1000 and 9999. *)
Lemma generateCode_range (r : Q) :
  isDouble r -> 0 <= r -> r < 1 ->
  exists n : Z, generateCode r = pretty n /\ (1000 <= n <= 9999)%Z.
Proof.
  intros Hd H0 H1. eexists. split; [reflexivity|].
  pose proof (isDouble_below_one r Hd H0 H1) as Hr.
  destruct (product_bound r H0 Hr) as [Hy0 Hy1].
  destruct (sum_bound _ Hy0 Hy1) as [Hlo Hhi].
  set (z := binary64 (1000 + binary64 (r * 9000))) in *.
  rewrite pow2_m39 in Hhi.
  split.
  - change 1000%Z with (Qfloor (inject_Z 1000)).
    apply Qfloor_resp_le. change (inject_Z 1000) with 1000. exact Hlo.
  - pose proof (Qfloor_le z) as Hf.
    assert (inject_Z (Qfloor z) < inject_Z 10000) as Hlt.
    { change (inject_Z 10000) with 10000. lra. }
    rewrite <- Zlt_Qlt in Hlt. lia.
Qed.

(** The rounding shows at the double nearest to 0.3: the exact product is
    under 2700, and the exact sum would give 3699; the rounded product is
    2700, and the code is 3700. *)
Lemma generateCode_rounds :
  isDouble (5404319552844595 # 18014398509481984)
  /\ Qfloor (1000 + (5404319552844595 # 18014398509481984) * 9000)
     = 3699%Z
  /\ generateCode (5404319552844595 # 18014398509481984) = "3700".
Proof. split; [reflexivity|]. split; vm_compute; reflexivity. Qed.

End Doubles.

Lemma step_codes_nonempty b st ev st' out :
  step b st ev = Returned st' out -> codes_nonempty st -> codes_nonempty st'.
Proof.
  intros Hstep Hst code rm. destruct ev as [w|w data draws|w]; simpl in Hstep.
  - injection Hstep as <- _. unfold on_connection.
    destruct (clients st !! w); apply Hst.
  - apply on_message_effect in Hstep as [->|[H|H]]; [apply Hst|..].
    + destruct H as (m & c & code' & _ & _ & _ & Hg & ->). simpl.
      apply generateUniqueCode_fresh in Hg as (_ & r & _ & ->).
      intros [[<- _]|[_ ?]]%lookup_insert_Some;
        [apply generateCode_nonempty|by eapply Hst].
    + destruct H as (m & c & code' & rm0 & _ & _ & _ & _ & Hrm0 & _ & ->).
      simpl. intros [[<- _]|[_ ?]]%lookup_insert_Some; by eapply Hst.
  - unfold on_close in Hstep. destruct (clients st !! w) as [c|];
      [|injection Hstep as <- _; apply Hst].
    unfold handleDisconnect in Hstep.
    destruct (currentCode c) as [code'|]; simpl in Hstep;
      [|injection Hstep as <- _; apply Hst].
    destruct (String.eqb code' ""); [injection Hstep as <- _; apply Hst|].
    simpl in Hstep. destruct (rooms st !! code');
      injection Hstep as <- _; simpl; [|apply Hst].
    intros [_ ?]%lookup_delete_Some. by eapply Hst.
Qed.

Lemma reachable_codes_nonempty b st : reachable b st -> codes_nonempty st.
Proof.
  induction 1 as [|st ev st' out _ IH Hstep]; [|by eapply step_codes_nonempty].
  intros code rm. unfold init; simpl. by rewrite lookup_empty.
Qed.

Lemma tag_create b : tag_of b (str "create-room") = CreateRoom.
Proof. by destruct b. Qed.

Lemma on_message_create b draws ws c message st :
  clients st !! ws = Some c ->
  tag_of b (get_prop message "type") = CreateRoom ->
  on_message b draws ws (Some message) st
  = match generateUniqueCode (rooms st) draws with
    | None => Spins
    | Some code =>
        let st' :=
          setClient (setRoom st code (Room ws None)) ws
            (Client (readyState c) (Some code) (Some RSender)) in
        Returned st'
          (sendMessage st ws
             (obj [("type", str "room-created"); ("code", str code)]))
    end.
Proof.
  intros Hc Ht.
  rewrite (on_message_dispatch _ _ _ c);
    [|done|apply (tag_not_null b); by rewrite Ht].
  unfold dispatch. rewrite Ht.
  destruct (generateUniqueCode (rooms st) draws); [|done]. simpl.
  unfold sendMessage. by rewrite is_open_rebind.
Qed.

(** [create-room] binds the caller, whatever it was bound to before, as
    soon as a draw gives a free code. *)
Lemma create_room_binds b draws ws c message st r :
  clients st !! ws = Some c ->
  tag_of b (get_prop message "type") = CreateRoom ->
  r ∈ draws -> rooms st !! generateCode r = None ->
  exists st' code,
    on_message b draws ws (Some message) st
    = Returned st'
        (sendMessage st ws
           (obj [("type", str "room-created"); ("code", str code)]))
    /\ rooms st !! code = None
    /\ bound st' ws code RSender (Room ws None).
Proof.
  intros Hc Ht Hr Hfree. rewrite (on_message_create _ _ _ c) by done.
  destruct (generateUniqueCode_returns _ _ _ Hr Hfree) as [code Hcode].
  rewrite Hcode. eexists _, code. split; [reflexivity|].
  destruct (generateUniqueCode_fresh _ _ _ Hcode) as (Hnew & r' & _ & ->).
  split; [done|]. unfold bound; simpl. rewrite !lookup_insert_eq.
  split; [by eexists|]. split; [apply generateCode_nonempty|done].
Qed.

(** A successful [join-room] binds the caller as receiver, whatever it
    was bound to before. *)
Lemma join_room_binds b draws ws c message st code rm :
  clients st !! ws = Some c ->
  codes_nonempty st ->
  get_prop message "type" = str "join-room" ->
  get_prop message "code" = str code ->
  rooms st !! code = Some rm -> receiver rm = None ->
  exists st' out,
    on_message b draws ws (Some message) st = Returned st' out
    /\ bound st' ws code RReceiver (Room (sender rm) (Some ws)).
Proof.
  intros Hc Hst Ht Hcode Hrm Hrcv. rewrite (on_message_join _ _ _ c) by done.
  rewrite Hcode. simpl. rewrite Hrm, Hrcv. eexists _, _.
  split; [reflexivity|]. unfold bound; simpl. rewrite !lookup_insert_eq.
  split; [by eexists|]. split; [by eapply Hst|done].
Qed.

(** *** Closing a connection *)

Lemma handleDisconnect_room code r rm st :
  code <> "" ->
  rooms st !! code = Some rm ->
  handleDisconnect (Some code) r st
  = (Server (delete code (rooms st)) (clients st),
     sendIfPresent st (otherPeer r rm)
       (obj [("type", str "peer-disconnected");
             ("message",
              str ("The " ++ role_name r ++ " has disconnected"))])).
Proof.
  intros Hne Hrm. unfold handleDisconnect.
  destruct (String.eqb code "") eqn:E; [by apply String.eqb_eq in E|].
  by rewrite Hrm.
Qed.




(** *** Role and code of a connection *)

Lemma two_rooms_reachable :
  option_map fst (run ServerJs init
    [Connection 1; Connection 2; Connection 3;
     Message 1 (Some createRoom) [1 # 2];
     Message 2 (Some (joinRoom "5500")) [];
     Message 3 (Some createRoom) [1 # 2; 0%Q]])
  = Some two_rooms.
Proof. vm_compute. reflexivity. Qed.

Lemma second_create_room :
  on_message ServerJs [0%Q] 1 (Some createRoom) paired
  = Returned rebound
      [(1%nat, obj [("type", str "room-created"); ("code", str "1000")])].
Proof. vm_compute. reflexivity. Defined.

(** The statement of C8 fails twice over.  The sender of a room that asks
    for a room again is given a second one, and its code is overwritten;
    and the sender of a room that joins another room becomes the receiver
    of that one. *)
Lemma bound_connection_rebinds :
  ~ binding_immutable ServerJs paired 1 (Some createRoom) [0%Q]
  /\ ~ binding_immutable ServerJs two_rooms 1 (Some (joinRoom "1000")) [].
Proof.
  split; intros H.
  - destruct (H (Client OPEN (Some "5500") (Some RSender)) _ _ eq_refl
                (ex_intro _ RSender eq_refl) second_create_room)
      as (c' & Hc' & _ & Hcode).
    vm_compute in Hc'. injection Hc' as <-. discriminate Hcode.
  - destruct (H (Client OPEN (Some "5500") (Some RSender))
                (Server {[ "5500" := Room 1 (Some 2);
                           "1000" := Room 3 (Some 1) ]}
                   {[ 1 := Client OPEN (Some "1000") (Some RReceiver);
                      2 := Client OPEN (Some "5500") (Some RReceiver);
                      3 := Client OPEN (Some "1000") (Some RSender) ]})
                [(1, obj [("type", str "room-joined"); ("code", str "1000")]);
                 (3, obj [("type", str "peer-joined")])])
      as (c' & Hc' & Hrole & _); [reflexivity|by eexists| |].
    + vm_compute. reflexivity.
    + vm_compute in Hc'. injection Hc' as <-. discriminate Hrole.
Qed.

(** C8, as the server has it.  A message that is handled changes the role
    and the code of no connection but its sender's, and changes those in
    two cases only, whatever role and code that connection already has: a
    [create-room], which makes a room under a code that was free and binds
    the connection to it as sender, and a [join-room] for a room whose
    receiver slot is empty, which fills the slot and binds the connection
    to that room as receiver.  Every other message, a refused join among
    them, leaves role and code as they are. *)
Theorem binding_set_by_create_and_join b draws ws data st st' out :
  on_message b draws ws data st = Returned st' out ->
  (forall w, w <> ws -> clients st' !! w = clients st !! w)
  /\ (clients st' !! ws = clients st !! ws
      \/ (exists message c code,
            data = Some message /\ clients st !! ws = Some c
            /\ tag_of b (get_prop message "type") = CreateRoom
            /\ rooms st !! code = None
            /\ rooms st' !! code = Some (Room ws None)
            /\ clients st' !! ws
               = Some (Client (readyState c) (Some code) (Some RSender)))
      \/ (exists message c code rm,
            data = Some message /\ clients st !! ws = Some c
            /\ tag_of b (get_prop message "type") = JoinRoom
            /\ get_prop message "code" = str code
            /\ rooms st !! code = Some rm /\ receiver rm = None
            /\ rooms st' !! code = Some (Room (sender rm) (Some ws))
            /\ clients st' !! ws
               = Some (Client (readyState c) (Some code) (Some RReceiver))))
  /\ (forall message c,
        data = Some message -> clients st !! ws = Some c ->
        tag_of b (get_prop message "type") = CreateRoom ->
        exists code,
          rooms st !! code = None
          /\ clients st' !! ws
             = Some (Client (readyState c) (Some code) (Some RSender)))
  /\ (forall message c code rm,
        data = Some message -> clients st !! ws = Some c ->
        get_prop message "type" = str "join-room" ->
        get_prop message "code" = str code ->
        rooms st !! code = Some rm -> receiver rm = None ->
        clients st' !! ws
        = Some (Client (readyState c) (Some code) (Some RReceiver))).
Proof.
  intros Hrun. split; [|split; [|split]].
  - intros w Hw.
    apply on_message_effect in Hrun as [->|[H|H]]; [done|..].
    + destruct H as (message & c & code & _ & _ & _ & _ & ->).
      simpl. by rewrite lookup_insert_ne.
    + destruct H as (message & c & code & rm & _ & _ & _ & _ & _ & _ & ->).
      simpl. by rewrite lookup_insert_ne.
  - apply on_message_effect in Hrun as [->|[H|H]]; [by left|..].
    + destruct H as (message & c & code & -> & Hc & Ht & Hfree & ->).
      apply generateUniqueCode_fresh in Hfree as [Hfree _].
      right; left. exists message, c, code. simpl.
      by rewrite !lookup_insert_eq.
    + destruct H as (message & c & code & rm & -> & Hc & Ht & Hcode & Hrm
                     & Hrcv & ->).
      right; right. exists message, c, code, rm. simpl.
      by rewrite !lookup_insert_eq.
  - intros message c -> Hc Ht.
    rewrite (on_message_create _ _ _ c) in Hrun by done.
    destruct (generateUniqueCode (rooms st) draws) as [code|] eqn:Hg;
      [|done].
    injection Hrun as <- _. exists code. simpl. rewrite lookup_insert_eq.
    by destruct (generateUniqueCode_fresh _ _ _ Hg).
  - intros message c code rm -> Hc Ht Hcode Hrm Hrcv.
    rewrite (on_message_join _ _ _ c) in Hrun by done.
    rewrite Hcode in Hrun. simpl in Hrun. rewrite Hrm, Hrcv in Hrun.
    injection Hrun as <- _. simpl. by rewrite lookup_insert_eq.
Qed.

Lemma binding_set_by_create_and_join_witness :
  clients rebound !! 2%nat = clients paired !! 2%nat
  /\ clients rebound !! 1%nat <> clients paired !! 1%nat.
Proof.
  split.
  - apply (proj1 (binding_set_by_create_and_join _ _ _ _ _ _ _
                    second_create_room)). discriminate.
  - discriminate.
Defined.

(** *** What rebinding and reused codes lead to

    The theorems about a bound connection ask that the room filed under
    the connection's code holds that connection.  The two runs below are
    why: the server keeps a closure's code after the room is gone, and
    keeps a room after its sender has bound itself elsewhere. *)

(** Connection 1 keeps the code of its room after connection 2 has left
    and the room is deleted.  When the code is drawn again for a room of
    connections 3 and 4, an [offer] of connection 1 is handed to
    connection 4, and the close of connection 1 deletes that room and
    tells connection 4 that its sender has gone. *)
Lemma stale_code_reaches_a_stranger :
  option_map (fun r => (drop 9 (snd r), rooms (fst r)))
    (run ServerJs init
       [Connection 1; Connection 2;
        Message 1 (Some createRoom) [1 # 2];
        Message 2 (Some (joinRoom "5500")) [];
        Close 2;
        Connection 3; Connection 4;
        Message 3 (Some createRoom) [1 # 2];
        Message 4 (Some (joinRoom "5500")) [];
        Message 1 (Some (obj [("type", str "offer"); ("offer", str "sdp")]))
          [];
        Close 1])
  = Some ([[(4%nat, obj [("type", str "offer"); ("offer", str "sdp")])];
           [(4%nat, peerDisconnected RSender)]],
          ∅).
Proof. vm_compute. reflexivity. Qed.

(** The sender of the room of two that has asked for a second room leaves
    the first one behind when it closes: the room stays in the registry
    and its receiver is told nothing. *)
Lemma rebound_close_leaves_first_room :
  rooms (fst (on_close 1 rebound)) !! "5500" = Some (Room 1 (Some 2))
  /\ rooms (fst (on_close 1 rebound)) !! "1000" = None
  /\ snd (on_close 1 rebound) = [].
Proof. by vm_compute. Qed.

(** *** Ending a session *)

Lemma tag_session_ended : tag_of ServerJs (str "session-ended") = SessionEnded.
Proof. done. Qed.

(** C9.  In the commented server, a [session-ended] message of a
    connection bound to a room is passed on as a [session-ended]
    notification naming the sender's role to the counterpart, when that
    slot is filled by an open socket, and the handler changes nothing: the
    room is in the registry afterwards as it was before. *)
Theorem session_ended_is_forwarded draws st ws code r rm message :
  bound st ws code r rm ->
  get_prop message "type" = str "session-ended" ->
  on_message ServerJs draws ws (Some message) st
  = Returned st (sendIfPresent st (counterpart r rm) (sessionEnded r))
  /\ (forall p, counterpart r rm = Some p -> is_open st p = true ->
                sendIfPresent st (counterpart r rm) (sessionEnded r)
                = [(p, sessionEnded r)])
  /\ (forall st' out,
        on_message ServerJs draws ws (Some message) st = Returned st' out ->
        rooms st' !! code = Some rm).
Proof.
  intros Hb Ht.
  destruct (bound_currentRoom _ _ _ _ _ Hb) as (c & Hc & Hroom & Hrole).
  assert (on_message ServerJs draws ws (Some message) st
          = Returned st (sendIfPresent st (counterpart r rm) (sessionEnded r)))
    as Hrun.
  { rewrite (on_message_dispatch _ _ _ c); [|done|by intros ->].
    unfold dispatch. rewrite Ht, tag_session_ended, Hroom, Hrole.
    by destruct r. }
  split; [done|]. split.
  - intros p -> Hopen. simpl. unfold sendMessage. by rewrite Hopen.
  - intros st' out. rewrite Hrun. intros [= <- _]. by destruct Hb as (_&_&?&_).
Qed.

Lemma session_ended_is_forwarded_witness :
  on_message ServerJs [] 2 (Some (obj [("type", str "session-ended")])) paired
  = Returned paired [(1%nat, sessionEnded RReceiver)].
Proof.
  exact (proj1 (session_ended_is_forwarded [] paired 2 "5500" RReceiver
                  (Room 1 (Some 2)) (obj [("type", str "session-ended")])
                  paired_bound_receiver eq_refl)).
Defined.

(** [BE/server_nocmt.js] has no such case: there the message falls to
    [default] and nothing is sent. *)
Lemma session_ended_unknown_to_nocmt draws st ws c message :
  clients st !! ws = Some c ->
  get_prop message "type" = str "session-ended" ->
  on_message ServerNocmtJs draws ws (Some message) st = Returned st [].
Proof.
  intros Hc Ht. rewrite (on_message_dispatch _ _ _ c); [|done|by intros ->].
  unfold dispatch. by rewrite Ht.
Qed.

(** ** The file transfer *)

(** *** Chunking *)

Section Chunking.

Variable F : nat.
Hypothesis F_pos : (0 < F)%nat.
Variable buf : list Byte.byte.

Lemma lt_ceilDiv (k : nat) :
  (k < ceilDiv (length buf) F)%nat <-> (k * F < length buf)%nat.
Proof using F_pos.
  unfold ceilDiv.
  pose proof (Nat.div_mod (length buf + F - 1) F ltac:(lia)) as Hdiv.
  pose proof (Nat.mod_upper_bound (length buf + F - 1) F ltac:(lia)) as Hmod.
  split; intros H; nia.
Qed.

Lemma slice_chunkAt (k : nat) :
  slice buf (k * F) (Nat.min (k * F + F) (length buf)) = chunkAt F buf k.
Proof using Type.
  clear F_pos.
  unfold slice, chunkAt.
  destruct (Nat.min_spec (k * F + F) (length buf)) as [[? ->]|[? ->]].
  - f_equal. lia.
  - rewrite !take_ge; [done|rewrite length_drop; lia..].
Qed.

Lemma chunk_loop_closed (fuel k : nat) (acc : list (list Byte.byte)) :
  (length buf - k * F <= fuel)%nat ->
  chunk_loop F buf fuel (k * F) acc
  = Some (acc ++ map (chunkAt F buf) (seq k (ceilDiv (length buf) F - k))).
Proof using F_pos.
  revert k acc. induction fuel as [|fuel IH]; intros k acc Hfuel.
  - simpl. destruct (Nat.ltb_spec (k * F) (length buf)) as [Hlt|Hge]; [lia|].
    assert (ceilDiv (length buf) F - k = 0)%nat as ->.
    { pose proof (lt_ceilDiv k). lia. }
    by rewrite app_nil_r.
  - simpl. destruct (Nat.ltb_spec (k * F) (length buf)) as [Hlt|Hge].
    + rewrite slice_chunkAt.
      replace (k * F + F)%nat with (S k * F)%nat by lia.
      rewrite IH by lia.
      apply lt_ceilDiv in Hlt.
      replace (ceilDiv (length buf) F - k)%nat
        with (S (ceilDiv (length buf) F - S k)) by lia.
      simpl. by rewrite <- app_assoc.
    + assert (ceilDiv (length buf) F - k = 0)%nat as ->.
      { pose proof (lt_ceilDiv k). lia. }
      by rewrite app_nil_r.
Qed.

Lemma chunksOf_closed :
  chunksOf F buf = Some (map (chunkAt F buf) (seq 0 (ceilDiv (length buf) F))).
Proof using F_pos.
  unfold chunksOf.
  pose proof (chunk_loop_closed (length buf) 0 []) as H.
  rewrite Nat.mul_0_l, !Nat.sub_0_r in H. by apply H.
Qed.

Lemma concat_chunkAt (k m : nat) :
  concat (map (chunkAt F buf) (seq k m)) = take (m * F) (drop (k * F) buf).
Proof using Type.
  clear F_pos.
  revert k. induction m as [|m IH]; intros k; [done|].
  simpl. rewrite IH. unfold chunkAt.
  replace (S k * F)%nat with (k * F + F)%nat by lia.
  rewrite <- drop_drop. apply take_take_drop.
Qed.

Lemma length_chunkAt (i : nat) :
  length (chunkAt F buf i) = Nat.min F (length buf - i * F).
Proof using Type.
  clear F_pos. unfold chunkAt. by rewrite length_take, length_drop. Qed.

Lemma chunksOf_concat (cs : list (list Byte.byte)) :
  chunksOf F buf = Some cs -> concat cs = buf.
Proof using F_pos.
  rewrite chunksOf_closed. intros [= <-].
  rewrite concat_chunkAt, drop_0. apply take_ge.
  destruct (Nat.le_gt_cases (length buf) (ceilDiv (length buf) F * F))
    as [|Hlt]; [done|].
  apply (proj2 (lt_ceilDiv _)) in Hlt. lia.
Qed.

End Chunking.


Lemma CHUNK_SIZE_pos : (0 < CHUNK_SIZE)%nat.
Proof. unfold CHUNK_SIZE. lia. Qed.

(** [chunkFile] returns for every file. *)
Lemma chunkFile_returns (file : File) : is_Some (chunkFile file).
Proof.
  unfold chunkFile. rewrite chunksOf_closed by apply CHUNK_SIZE_pos.
  by eexists.
Qed.

(** *** The sending side *)

Lemma while_loop_sends (rest : list (list Byte.byte)) (e : encoder) :
  exists j,
    (j <= length rest)%nat
    /\ chunks (while_loop rest e) = chunks e
    /\ sentChunks (while_loop rest e) = (sentChunks e + j)%nat
    /\ wire (while_loop rest e) = wire e ++ map Binary (take j rest)
    /\ total (while_loop rest e) = total e
    /\ sentBytes (while_loop rest e)
       = (sentBytes e + Z.of_nat (length (concat (take j rest))))%Z.
Proof.
  revert e. induction rest as [|chunk rest IH]; intros e.
  - exists 0%nat. simpl. rewrite app_nil_r. repeat split; lia.
  - simpl. destruct (bufferedAmount e <=? BUFFER_THRESHOLD)%Z.
    + destruct (IH (sendChunk chunk e)) as (j & Hj & Hc & Hs & Hw & Ht & Hb).
      exists (S j). simpl in *.
      rewrite Hc, Hs, Hw, Ht, Hb, <- app_assoc, length_app.
      repeat split; try lia. 
    + exists 0%nat. simpl. rewrite app_nil_r. repeat split; lia.
Qed.

Lemma replicate_snoc {A} (k : nat) (x : A) :
  replicate k x ++ [x] = replicate (S k) x.
Proof. induction k as [|k IH]; simpl; [done|]. by rewrite IH. Qed.

(** One call of [sendNextChunk] where the metadata has gone out and no
    sentinel yet: more chunks go out, and the sentinel when they all
    have. *)
Lemma sendNextChunk_first (file : File) (cs : list (list Byte.byte))
    (e : encoder) :
  chunks e = cs -> (sentChunks e <= length cs)%nat ->
  wire e = framesOf file cs (sentChunks e) 0 ->
  total e = size file ->
  sentBytes e = Z.of_nat (length (concat (take (sentChunks e) cs))) ->
  exists k, (k <= 1)%nat /\ sending file cs k (sendNextChunk e).
Proof.
  intros Hcs Hle Hwire Htotal Hbytes. unfold sendNextChunk.
  destruct (while_loop_sends (drop (sentChunks e) (chunks e)) e)
    as (j & Hj & Hc & Hs & Hw & Ht & Hb).
  set (e' := while_loop (drop (sentChunks e) (chunks e)) e) in *.
  rewrite Hcs in *. rewrite length_drop in Hj.
  assert (wire e' = framesOf file cs (sentChunks e') 0
          /\ sentBytes e'
             = Z.of_nat (length (concat (take (sentChunks e') cs))))
    as [Hw' Hb'].
  { rewrite Hw, Hb, Hs, Hwire, Hbytes. unfold framesOf. simpl.
    rewrite !app_nil_r, <- (take_take_drop cs (sentChunks e) j).
    by rewrite map_app, concat_app, length_app, Nat2Z.inj_add. }
  destruct (Nat.leb_spec (length (chunks e')) (sentChunks e')) as [Hfin|Hnot].
  - exists 1%nat. split; [lia|].
    rewrite Hc in Hfin. unfold sending, sendFileEnd; simpl.
    rewrite Hc, Ht, Hw', Hb'. unfold framesOf. simpl.
    rewrite <- app_assoc. simpl. repeat split; try done; lia.
  - exists 0%nat. split; [lia|]. rewrite Hc in Hnot. unfold sending.
    rewrite Hc, Ht. repeat split; try done; lia.
Qed.

(** A later call, on the [bufferedamountlow] event. *)
Lemma onbufferedamountlow_sending (file : File) (cs : list (list Byte.byte))
    (k : nat) (b : Z) (e : encoder) :
  sending file cs k e ->
  exists k',
    sending file cs k' (onbufferedamountlow b e)
    /\ (k <= k')%nat
    /\ ((1 <= k)%nat -> k' = S k).
Proof.
  intros (Hcs & Hle & Hwire & Hk & Htotal & Hbytes).
  destruct (decide (k = 0)%nat) as [->|Hpos].
  - destruct (sendNextChunk_first file cs
                (Encoder (chunks e) (sentChunks e) (sentBytes e) (total e) b
                   (wire e) (reports e))) as (k' & _ & Hk'); try done.
    exists k'. split; [exact Hk'|]. split; lia.
  - exists (S k). split; [|lia].
    assert (sentChunks e = length cs) as Hall by (apply Hk; lia).
    unfold onbufferedamountlow, sendNextChunk. simpl.
    rewrite Hcs, Hall, drop_all. simpl.
    rewrite Nat.leb_refl. unfold sending, sendFileEnd. simpl.
    rewrite Hwire, Hall. unfold framesOf. simpl.
    rewrite <- app_assoc, replicate_snoc. rewrite Hall in Hbytes.
    repeat split; try done; lia.
Qed.

Lemma drain_sending (file : File) (cs : list (list Byte.byte))
    (lows : list Z) (k : nat) (e : encoder) :
  sending file cs k e ->
  exists k', sending file cs k' (drain e lows) /\ (k <= k')%nat
             /\ ((1 <= k)%nat -> k' = (k + length lows)%nat).
Proof.
  revert k e. induction lows as [|b lows IH]; intros k e He.
  - exists k. simpl. split; [done|]. split; lia.
  - destruct (onbufferedamountlow_sending file cs k b e He)
      as (k1 & He1 & Hle1 & Hk1).
    destruct (IH k1 _ He1) as (k2 & He2 & Hle2 & Hk2).
    exists k2. simpl. split; [exact He2|]. split; [lia|].
    intros Hk. rewrite Hk2, Hk1 by lia. lia.
Qed.

Lemma sendFile_sending (file : File) (b0 : Z) (e0 : encoder) :
  sendFile file b0 = Some e0 ->
  exists cs k,
    chunkFile file = Some cs /\ (k <= 1)%nat /\ sending file cs k e0.
Proof.
  unfold sendFile.
  destruct (chunkFile file) as [cs|] eqn:Hcs; [|done]. intros [= <-].
  destruct (sendNextChunk_first file cs
              (Encoder cs 0 0 (size file) b0 [Text (metadata file)] []))
    as (k & Hk1 & Hk); try done; simpl; try lia.
  by exists cs, k.
Qed.

(** Whatever the channel's buffer does, a transfer has sent the metadata,
    then chunks of the file in order, then sentinels, and sentinels only
    after the last chunk. *)
Lemma transfer_sending (file : File) (b0 : Z) (lows : list Z) (e : encoder) :
  transfer file b0 lows = Some e ->
  exists cs k, chunkFile file = Some cs /\ sending file cs k e.
Proof.
  unfold transfer.
  destruct (sendFile file b0) as [e0|] eqn:Hsend; [|done]. intros [= <-].
  destruct (sendFile_sending _ _ _ Hsend) as (cs & k & Hcs & _ & Hk).
  destruct (drain_sending file cs lows k _ Hk) as (k' & Hk' & _).
  by exists cs, k'.
Qed.

Lemma sentinels_framesOf (file : File) (cs : list (list Byte.byte))
    (s k : nat) :
  sentinels (framesOf file cs s k) = k.
Proof.
  unfold sentinels, framesOf.
  rewrite filter_cons_False by (simpl; discriminate).
  rewrite filter_app, length_app.
  assert (filter (fun f => isFileEnd f = true) (map Binary (take s cs)) = [])
    as ->.
  { induction (take s cs) as [|c l IH]; [done|].
    rewrite map_cons, filter_cons_False; [exact IH|simpl; discriminate]. }
  induction k as [|k IH]; [done|].
  rewrite replicate_S, filter_cons_True by done.
  simpl in *. by rewrite IH.
Qed.

(** Once every chunk has gone out, each [bufferedamountlow] event sends
    the sentinel again. *)
Lemma sentinel_per_event (file : File) (b0 : Z) (lows : list Z)
    (e0 : encoder) :
  sendFile file b0 = Some e0 ->
  finished e0 = true ->
  sentinels (wire (drain e0 lows)) = S (length lows).
Proof.
  intros Hsend Hfin.
  destruct (sendFile_sending _ _ _ Hsend) as (cs & k & Hcs & Hk1 & He0).
  destruct (drain_sending file cs lows k e0 He0) as (k' & He & _ & Hk').
  destruct He0 as (Hc & Hle & _ & Hk & _).
  destruct He as (_ & _ & Hw' & _).
  unfold finished in Hfin. apply Nat.leb_le in Hfin. rewrite Hc in Hfin.
  assert (1 <= k)%nat by (apply Hk; lia).
  rewrite Hw', sentinels_framesOf, Hk' by lia. lia.
Qed.

(** **** What the sender counts and reports *)

Lemma runningTotals_app (sent total : Z) (l1 l2 : list (list Byte.byte)) :
  runningTotals sent total (l1 ++ l2)
  = runningTotals sent total l1
    ++ runningTotals (sent + Z.of_nat (length (concat l1))) total l2.
Proof.
  revert sent. induction l1 as [|c l1 IH]; intros sent; simpl.
  - by rewrite Z.add_0_r.
  - rewrite IH, length_app, Nat2Z.inj_add, Z.add_assoc. done.
Qed.

(** The [while] loop, as to what it counts, reports and leaves in the
    buffer. *)
Lemma while_loop_reports (rest : list (list Byte.byte)) (e : encoder) :
  exists j,
    (j <= length rest)%nat
    /\ chunks (while_loop rest e) = chunks e
    /\ sentChunks (while_loop rest e) = (sentChunks e + j)%nat
    /\ total (while_loop rest e) = total e
    /\ sentBytes (while_loop rest e)
       = (sentBytes e + Z.of_nat (length (concat (take j rest))))%Z
    /\ reports (while_loop rest e)
       = reports e ++ runningTotals (sentBytes e) (total e) (take j rest)
    /\ ((bufferedAmount e <= BUFFER_THRESHOLD)%Z -> rest <> [] ->
        (1 <= j)%nat).
Proof.
  revert e. induction rest as [|chunk rest IH]; intros e.
  - exists 0%nat. simpl. rewrite app_nil_r. repeat split; try lia. done.
  - simpl. destruct (Z.leb_spec (bufferedAmount e) BUFFER_THRESHOLD).
    + destruct (IH (sendChunk chunk e))
        as (j & Hj & Hc & Hs & Ht & Hb & Hr & _).
      exists (S j). simpl in *.
      rewrite Hc, Hs, Ht, Hb, Hr, <- app_assoc, length_app.
      repeat split; try lia. 
    + exists 0%nat. simpl. rewrite app_nil_r. repeat split; try lia.
Qed.

Lemma sendNextChunk_reporting (file : File) (cs : list (list Byte.byte))
    (e : encoder) :
  reporting file cs e ->
  reporting file cs (sendNextChunk e)
  /\ (sentChunks e <= sentChunks (sendNextChunk e))%nat
  /\ ((bufferedAmount e <= BUFFER_THRESHOLD)%Z ->
      (sentChunks e < length cs)%nat ->
      (sentChunks e < sentChunks (sendNextChunk e))%nat).
Proof.
  intros (Hcs & Hle & Htotal & Hbytes & Hreports). unfold sendNextChunk.
  destruct (while_loop_reports (drop (sentChunks e) (chunks e)) e)
    as (j & Hj & Hc & Hs & Ht & Hb & Hr & Hgo).
  set (e' := while_loop (drop (sentChunks e) (chunks e)) e) in *.
  rewrite Hcs in *. rewrite length_drop in Hj.
  assert (reporting file cs e') as He'.
  { unfold reporting. rewrite Hc, Hs, Ht, Hb, Hr, Hbytes, Hreports, Htotal.
    rewrite <- (take_take_drop cs (sentChunks e) j).
    rewrite runningTotals_app, concat_app, length_app, Nat2Z.inj_add.
    repeat split; try done; lia. }
  assert (sentChunks (if (length (chunks e') <=? sentChunks e')%nat
                      then sendFileEnd e' else e') = sentChunks e') as Hsame
    by by destruct (length (chunks e') <=? sentChunks e')%nat.
  split; [|rewrite Hsame, Hs; split; [lia|]].
  - by destruct (length (chunks e') <=? sentChunks e')%nat.
  - intros Hlow Hmore. cut (1 <= j)%nat; [lia|]. apply Hgo; [done|].
    intros Hnil. apply (f_equal length) in Hnil.
    rewrite length_drop in Hnil. simpl in Hnil. lia.
Qed.

Lemma onbufferedamountlow_reporting (file : File)
    (cs : list (list Byte.byte)) (b : Z) (e : encoder) :
  reporting file cs e ->
  reporting file cs (onbufferedamountlow b e)
  /\ (sentChunks e <= sentChunks (onbufferedamountlow b e))%nat
  /\ ((b <= BUFFER_THRESHOLD)%Z ->
      (sentChunks e < length cs)%nat ->
      (sentChunks e < sentChunks (onbufferedamountlow b e))%nat).
Proof.
  intros He. unfold onbufferedamountlow.
  by apply (sendNextChunk_reporting file cs
              (Encoder (chunks e) (sentChunks e) (sentBytes e) (total e) b
                 (wire e) (reports e))).
Qed.

Lemma sendFile_reporting (file : File) (b0 : Z) (e0 : encoder) :
  sendFile file b0 = Some e0 ->
  exists cs, chunkFile file = Some cs /\ reporting file cs e0.
Proof.
  unfold sendFile. destruct (chunkFile file) as [cs|] eqn:Hcs; [|done].
  intros [= <-]. exists cs. split; [done|].
  apply sendNextChunk_reporting. unfold reporting. simpl.
  repeat split; try done; lia.
Qed.

Lemma drain_reporting (file : File) (cs : list (list Byte.byte))
    (lows : list Z) (e : encoder) :
  reporting file cs e ->
  reporting file cs (drain e lows)
  /\ (Forall (fun b => (b <= BUFFER_THRESHOLD)%Z) lows ->
      (Nat.min (length cs) (sentChunks e + length lows)
       <= sentChunks (drain e lows))%nat).
Proof.
  revert e. induction lows as [|b lows IH]; intros e He.
  - simpl. split; [done|]. destruct He as (_ & ? & _). lia.
  - destruct (onbufferedamountlow_reporting file cs b e He)
      as (He1 & Hmono & Hgo).
    destruct (IH _ He1) as [He2 Hmore]. simpl. split; [done|].
    intros Hall. apply Forall_cons in Hall as [Hb Hall].
    specialize (Hmore Hall). destruct He as (_ & Hle & _).
    destruct (Nat.lt_ge_cases (sentChunks e) (length cs)) as [Hlt|Hge].
    + specialize (Hgo Hb Hlt). lia.
    + lia.
Qed.

Section Reports.

Variable F : nat.
Hypothesis F_pos : (0 < F)%nat.
Variable buf : list Byte.byte.

Lemma runningTotals_chunkAt (total : Z) (k m : nat) :
  runningTotals (Z.of_nat (Nat.min (k * F) (length buf))) total
    (map (chunkAt F buf) (seq k m))
  = map (fun i => (Z.of_nat (Nat.min (S i * F) (length buf)), total))
      (seq k m).
Proof using Type.
  clear F_pos. revert k. induction m as [|m IH]; intros k; [done|]. simpl.
  rewrite length_chunkAt, <- Nat2Z.inj_add.
  replace (Nat.min (k * F) (length buf)
           + Nat.min F (length buf - k * F))%nat
    with (Nat.min (S k * F) (length buf)) by lia.
  by rewrite IH.
Qed.

Lemma take_chunks (s : nat) :
  (s <= ceilDiv (length buf) F)%nat ->
  take s (map (chunkAt F buf) (seq 0 (ceilDiv (length buf) F)))
  = map (chunkAt F buf) (seq 0 s).
Proof using Type.
  clear F_pos. intros Hs.
  replace (ceilDiv (length buf) F)
    with (s + (ceilDiv (length buf) F - s))%nat by lia.
  rewrite seq_app, map_app, take_app_length'; [done|].
  by rewrite length_map, length_seq.
Qed.

Lemma chunks_bounded (cs : list (list Byte.byte)) :
  chunksOf F buf = Some cs ->
  length cs = ceilDiv (length buf) F
  /\ Forall (fun c => (length c <= F)%nat) cs.
Proof using F_pos.
  rewrite chunksOf_closed by done. intros [= <-].
  split; [by rewrite length_map, length_seq|].
  apply Forall_forall. intros c (i & -> & _)%list_elem_of_fmap.
  rewrite length_chunkAt. lia.
Qed.

End Reports.

(** With as many [bufferedamountlow] events, each at or under the
    threshold, as the file has chunks, every chunk has been sent. *)
Lemma events_suffice (file : File) (b0 : Z) (lows : list Z) (e : encoder) :
  Forall (fun b => (b <= BUFFER_THRESHOLD)%Z) lows ->
  (ceilDiv (length (content file)) CHUNK_SIZE <= length lows)%nat ->
  transfer file b0 lows = Some e ->
  finished e = true.
Proof.
  intros Hlows Hmany. unfold transfer.
  destruct (sendFile file b0) as [e0|] eqn:Hsend; [|done]. intros [= <-].
  destruct (sendFile_reporting _ _ _ Hsend) as (cs & Hcs & He0).
  destruct (chunks_bounded _ CHUNK_SIZE_pos _ _ Hcs) as [Hlen _].
  destruct (drain_reporting file cs lows e0 He0) as [(Hc & _) Hmore].
  specialize (Hmore Hlows). unfold finished. rewrite Hc.
  apply Nat.leb_le. rewrite Hlen in *. lia.
Qed.

Lemma transfer_returns (file : File) (b0 : Z) (lows : list Z) :
  is_Some (transfer file b0 lows).
Proof.
  unfold transfer, sendFile.
  destruct (chunkFile_returns file) as [cs ->]. by eexists.
Qed.




(** *** The receiving side *)

Lemma feed_app (r : fileReceiver) (ds1 ds2 : list data) :
  feed r (ds1 ++ ds2)
  = (fst (feed (fst (feed r ds1)) ds2),
     snd (feed r ds1) ++ snd (feed (fst (feed r ds1)) ds2)).
Proof.
  revert r. induction ds1 as [|d ds1 IH]; intros r; simpl.
  - by destruct (feed r ds2).
  - destruct (handleMessage r d) as [r' calls|x].
    + rewrite IH. destruct (feed r' ds1) as [r1 o1]. simpl.
      by rewrite app_assoc.
    + rewrite IH. by destruct (feed r ds1) as [r1 o1].
Qed.

(** Binary frames are taken in whether metadata is stored or not; they
    are reported only when it is. *)
Lemma feed_binary (bs : list (list Byte.byte)) (r : fileReceiver) :
  feed r (map DBinary bs)
  = (FileReceiver (fileMetadata r) (receivedChunks r ++ bs)
       (receivedBytes r + Z.of_nat (length (concat bs))),
     match fileMetadata r with
     | Some m => progressCalls (receivedBytes r) (get_prop m "size") bs
     | None => []
     end).
Proof.
  revert r. induction bs as [|b bs IH]; intros r.
  - simpl. rewrite app_nil_r, Z.add_0_r. destruct r as [[m|] ? ?]; done.
  - simpl. rewrite IH. simpl.
    rewrite <- app_assoc, length_app, Nat2Z.inj_add, Z.add_assoc. simpl.
    by destruct (fileMetadata r).
Qed.

Lemma handleMessage_metadata (r : fileReceiver) (m : json) :
  isMetadata m ->
  handleMessage r (DString (Some m))
  = Handled (FileReceiver (Some m) (receivedChunks r) (receivedBytes r))
      [OnMetadata m].
Proof.
  unfold isMetadata. intros Hm. destruct m; try done.
  simpl in *. by rewrite Hm.
Qed.

Lemma handleMessage_fileEnd (r : fileReceiver) (m : json) :
  fileMetadata r = Some m ->
  handleMessage r (DString (Some fileEnd))
  = Handled createFileReceiver
      [OnComplete
         (Received (concat (receivedChunks r)) (get_prop m "name")
            (get_prop m "mimeType"))].
Proof. intros Hm. simpl. by rewrite Hm. Qed.

Lemma progressCalls_caught (received : Z) (total : value)
    (bs : list (list Byte.byte)) :
  forallb (fun o => negb (isUncaught o)) (progressCalls received total bs)
  = true.
Proof. revert received. induction bs as [|b bs IH]; intros n; simpl; auto. Qed.

Lemma metadata_isMetadata (file : File) : isMetadata (metadata file).
Proof. done. Qed.

Lemma map_replicate {A B} (f : A -> B) (n : nat) (x : A) :
  map f (replicate n x) = replicate n (f x).
Proof. induction n as [|n IH]; simpl; [done|]. by rewrite IH. Qed.

(** A receiver that holds no metadata throws at every sentinel. *)
Lemma feed_sentinels (n : nat) :
  feed createFileReceiver (replicate n (DString (Some fileEnd)))
  = (createFileReceiver, replicate n (Uncaught TypeError)).
Proof. induction n as [|n IH]; [done|]. simpl in *. by rewrite IH. Qed.

(** C2.  Take any file and any course of the channel's buffer.
    [sendFile] returns, and the sender gets to the end of the chunks: it
    has, at the latest, after as many [bufferedamountlow] events, each at
    or under the threshold, as the file has chunks.  Once it has, the
    frames it has sent start with a part free of sentinels, followed by a
    sentinel.  Fed that part in order, the receiver raises no exception
    and holds the sent metadata, whose [size] is the file's, and has
    counted exactly that many bytes; and on the sentinel it hands over a
    file with the bytes, the name and the type of the one sent.  Whatever
    the sender has sent after that sentinel is a sentinel again, and the
    receiver throws at each. *)
Theorem transfer_round_trip (file : File) (b0 : Z) (lows : list Z) :
  exists e,
    transfer file b0 lows = Some e
    /\ (Forall (fun b => (b <= BUFFER_THRESHOLD)%Z) lows ->
        (ceilDiv (length (content file)) CHUNK_SIZE <= length lows)%nat ->
        finished e = true)
    /\ (finished e = true ->
        exists body extra,
          wire e = body ++ Text fileEnd :: extra
          /\ sentinels body = 0%nat
          /\ forallb (fun o => negb (isUncaught o))
               (snd (feed createFileReceiver (map deliver body))) = true
          /\ fileMetadata (fst (feed createFileReceiver (map deliver body)))
             = Some (metadata file)
          /\ get_prop (metadata file) "size" = Some (JNum (size file))
          /\ receivedBytes (fst (feed createFileReceiver (map deliver body)))
             = size file
          /\ handleMessage (fst (feed createFileReceiver (map deliver body)))
               (deliver (Text fileEnd))
             = Handled createFileReceiver
                 [OnComplete
                    (Received (content file) (str (name file))
                       (get_prop (metadata file) "mimeType"))]
          /\ feed createFileReceiver (map deliver (wire e))
             = (createFileReceiver,
                snd (feed createFileReceiver (map deliver body))
                ++ Call (OnComplete
                           (Received (content file) (str (name file))
                              (get_prop (metadata file) "mimeType")))
                :: replicate (length extra) (Uncaught TypeError))).
Proof.
  destruct (transfer_returns file b0 lows) as [e Hrun]. exists e.
  split; [exact Hrun|].
  split; [intros Hlows Hmany; by eapply events_suffice|].
  intros Hfin.
  destruct (transfer_sending _ _ _ _ Hrun)
    as (cs & k & Hcs & Hc & Hle & Hw & Hk & _).
  unfold finished in Hfin. apply Nat.leb_le in Hfin. rewrite Hc in Hfin.
  assert (sentChunks e = length cs) as Hall by lia.
  assert (1 <= k)%nat as Hk1 by by apply Hk.
  assert (concat cs = content file) as Hcat
    by (eapply chunksOf_concat; [apply CHUNK_SIZE_pos|exact Hcs]).
  set (body := framesOf file cs (length cs) 0).
  set (extra := replicate (k - 1) (Text fileEnd)).
  assert (wire e = body ++ Text fileEnd :: extra) as Hwire.
  { destruct k as [|k']; [lia|]. rewrite Hw, Hall. unfold body, extra, framesOf.
    rewrite app_nil_r. simpl. by rewrite Nat.sub_0_r. }
  assert (feed createFileReceiver (map deliver body)
          = (FileReceiver (Some (metadata file)) cs (size file),
             Call (OnMetadata (metadata file))
             :: progressCalls 0 (Some (JNum (size file))) cs)) as Hbody.
  { unfold body, framesOf. rewrite app_nil_r, take_ge by done.
    change (map deliver (Text (metadata file) :: map Binary cs))
      with (DString (Some (metadata file)) :: map deliver (map Binary cs)).
    rewrite map_map.
    change (map (fun x => deliver (Binary x)) cs) with (map DBinary cs).
    cbn [feed].
    rewrite (handleMessage_metadata _ _ (metadata_isMetadata file)).
    rewrite feed_binary. simpl. rewrite Hcat. reflexivity. }
  assert (handleMessage (FileReceiver (Some (metadata file)) cs (size file))
            (deliver (Text fileEnd))
          = Handled createFileReceiver
              [OnComplete
                 (Received (content file) (str (name file))
                    (get_prop (metadata file) "mimeType"))]) as Hend.
  { cbn [deliver]. erewrite handleMessage_fileEnd by reflexivity.
    cbn [receivedChunks]. by rewrite Hcat. }
  exists body, extra. rewrite Hbody. cbn [fst snd fileMetadata receivedBytes].
  split; [done|]. split; [apply sentinels_framesOf|].
  split; [apply progressCalls_caught|].
  split; [done|]. split; [done|]. split; [done|]. split; [done|].
  rewrite Hwire, map_app, feed_app, Hbody. cbn [fst snd map feed].
  rewrite Hend. unfold extra. rewrite map_replicate. cbn [deliver].
  rewrite feed_sentinels, length_replicate. reflexivity.
Qed.

Lemma transfer_round_trip_witness :
  exists e body extra,
    transfer sixChunks 0 [0; 0; 0; 0; 0; 0]%Z = Some e
    /\ finished e = true
    /\ wire e = body ++ Text fileEnd :: extra
    /\ handleMessage (fst (feed createFileReceiver (map deliver body)))
         (deliver (Text fileEnd))
       = Handled createFileReceiver
           [OnComplete
              (Received (content sixChunks) (str "six.bin")
                 (str "application/octet-stream"))].
Proof.
  destruct (transfer_round_trip sixChunks 0 [0; 0; 0; 0; 0; 0]%Z)
    as (e & He & Hfin & Hdone).
  assert (finished e = true) as Hf.
  { apply Hfin; [by repeat constructor|]. vm_compute. lia. }
  destruct (Hdone Hf) as (body & extra & Hw & _ & _ & _ & _ & _ & Hend & _).
  exists e, body, extra. split; [exact He|]. split; [exact Hf|].
  split; [exact Hw|exact Hend].
Defined.

(** C6 at a file of five full chunks, sent into an empty buffer.  The
    first call of [sendNextChunk] sends the five chunks and the sentinel
    and leaves more than the threshold in the buffer; so the
    [bufferedamountlow] event fires when the buffer has emptied, the
    handler runs again, and a second sentinel goes out. *)
Theorem sentinel_sent_again :
  option_map
    (fun e0 =>
       (finished e0, sentinels (wire e0), fires e0 0,
        sentinels (wire (onbufferedamountlow 0 e0))))
    (sendFile fiveChunks 0)
  = Some (true, 1%nat, true, 2%nat).
Proof. vm_compute. reflexivity. Qed.

(** The receiver of those frames hands over the file at the first
    sentinel and throws at the second. *)
Lemma second_sentinel_uncaught :
  option_map
    (fun e0 =>
       last (snd (feed createFileReceiver
                    (map deliver (wire (onbufferedamountlow 0 e0))))))
    (sendFile fiveChunks 0)
  = Some (Some (Uncaught TypeError)).
Proof. vm_compute. reflexivity. Qed.

(** The statement of C7 fails: a binary frame that comes before the
    metadata is kept and ends up at the head of the completed file, and a
    second metadata frame in mid-transfer only renames the file; nothing
    fails. *)
Lemma early_frame_is_in_the_file :
  snd (feed createFileReceiver
         [DBinary [Byte.x01]; DString (Some (metadata forty));
          DBinary [Byte.x02]; DString (Some fileEnd)])
  = [Call (OnMetadata (metadata forty));
     Call (OnProgress 2 (Some (JNum 40)));
     Call (OnComplete
             (Received [Byte.x01; Byte.x02] (str "forty.bin")
                (str "text/plain")))]
  /\ snd (feed createFileReceiver
            [DString (Some (metadata fiveChunks)); DBinary [Byte.x01];
             DString (Some (metadata forty)); DBinary [Byte.x02];
             DString (Some fileEnd)])
     = [Call (OnMetadata (metadata fiveChunks));
        Call (OnProgress 1 (Some (JNum 81920)));
        Call (OnMetadata (metadata forty));
        Call (OnProgress 2 (Some (JNum 40)));
        Call (OnComplete
                (Received [Byte.x01; Byte.x02] (str "forty.bin")
                   (str "text/plain")))].
Proof. split; vm_compute; reflexivity. Qed.

(** C7, as the receiver has it.  Binary frames that come before any
    metadata are kept without a progress report, and a second metadata
    frame replaces the stored one and keeps the bytes received so far: in
    both cases no exception is raised, the transfer goes on, and the file
    handed over at the sentinel holds every binary frame received, in the
    order of arrival, under the name and type of the last metadata. *)
Theorem out_of_order_frames_are_kept (m1 m2 : json)
    (early bs1 bs2 : list (list Byte.byte)) :
  isMetadata m1 ->
  isMetadata m2 ->
  feed createFileReceiver
    (map DBinary early ++ DString (Some m2) :: map DBinary bs2
     ++ [DString (Some fileEnd)])
  = (createFileReceiver,
     Call (OnMetadata m2)
     :: progressCalls (Z.of_nat (length (concat early))) (get_prop m2 "size")
          bs2
     ++ [Call (OnComplete
                 (Received (concat early ++ concat bs2) (get_prop m2 "name")
                    (get_prop m2 "mimeType")))])
  /\ feed createFileReceiver
       (DString (Some m1) :: map DBinary bs1 ++ DString (Some m2)
        :: map DBinary bs2 ++ [DString (Some fileEnd)])
     = (createFileReceiver,
        Call (OnMetadata m1)
        :: progressCalls 0 (get_prop m1 "size") bs1
        ++ Call (OnMetadata m2)
        :: progressCalls (Z.of_nat (length (concat bs1)))
             (get_prop m2 "size") bs2
        ++ [Call (OnComplete
                    (Received (concat bs1 ++ concat bs2) (get_prop m2 "name")
                       (get_prop m2 "mimeType")))]).
Proof.
  intros Hm1 Hm2.
  assert (forall r,
            feed r (DString (Some m2) :: map DBinary bs2
                    ++ [DString (Some fileEnd)])
            = (createFileReceiver,
               Call (OnMetadata m2)
               :: progressCalls (receivedBytes r) (get_prop m2 "size") bs2
               ++ [Call (OnComplete
                           (Received (concat (receivedChunks r ++ bs2))
                              (get_prop m2 "name")
                              (get_prop m2 "mimeType")))])) as Htail.
  { intros r. cbn [feed]. rewrite (handleMessage_metadata _ _ Hm2).
    rewrite feed_app, feed_binary.
    cbn [fst snd fileMetadata receivedBytes receivedChunks feed].
    erewrite handleMessage_fileEnd by reflexivity. reflexivity. }
  split.
  - rewrite feed_app, feed_binary.
    cbn [fst snd fileMetadata createFileReceiver].
    rewrite Htail. cbn [receivedBytes receivedChunks app].
    by rewrite concat_app.
  - cbn [feed]. rewrite (handleMessage_metadata _ _ Hm1).
    rewrite feed_app, feed_binary.
    cbn [fst snd fileMetadata receivedBytes receivedChunks createFileReceiver].
    rewrite Htail. cbn [fst snd receivedBytes receivedChunks app].
    by rewrite concat_app, ?Z.add_0_l.
Qed.

Lemma out_of_order_frames_are_kept_witness :
  feed createFileReceiver
    [DBinary [Byte.x01]; DString (Some (metadata forty));
     DBinary [Byte.x02]; DString (Some fileEnd)]
  = (createFileReceiver,
     [Call (OnMetadata (metadata forty));
      Call (OnProgress 2 (Some (JNum 40)));
      Call (OnComplete
              (Received [Byte.x01; Byte.x02] (str "forty.bin")
                 (str "text/plain")))]).
Proof.
  exact (proj1 (out_of_order_frames_are_kept (metadata forty) (metadata forty)
                  [[Byte.x01]] [] [[Byte.x02]] eq_refl eq_refl)).
Defined.

(** C10 at its failing inputs.  A sentinel that reaches a receiver with
    no metadata stored makes [handleMessage] throw a [TypeError], at the
    read of [fileMetadata.mimeType]; a string that is not JSON makes it
    throw the [SyntaxError] of [JSON.parse], and the string [null] a
    [TypeError] at the read of [message.type]. *)
Theorem handleMessage_throws :
  handleMessage createFileReceiver (DString (Some fileEnd)) = Throws TypeError
  /\ (forall r, handleMessage r (DString None) = Throws SyntaxError)
  /\ (forall r, handleMessage r (DString (Some JNull)) = Throws TypeError).
Proof. by repeat split. Qed.

(** * More of the code *)

(** ** Room codes from the server to the receive page *)

Lemma every_code_ok :
  forallb (fun i => codeOk (pretty (Z.of_nat i))) (seq 1000 (9 * 1000))
  = true.
Proof. vm_compute. reflexivity. Qed.

(** X1.  A code made by [generateCode] from a draw of [Math.random], a
    double from 0 up to but not 1, with the product and the sum each
    rounded to a double, has four characters; the guard of
    [handleConnect] on the receive page lets it pass; and typed into the
    code field it is stored by [handleCodeChange] as it is, so the
    [join-room] the page sends carries the very code the server made. *)
Theorem generated_code_is_accepted (r : Q) :
  isDouble r -> (0 <= r)%Q -> (r < 1)%Q ->
  String.length (generateCode r) = 4%nat
  /\ handleConnect_accepts (generateCode r) = true
  /\ handleCodeChange (generateCode r) = generateCode r
  /\ joinRequest (handleCodeChange (generateCode r))
     = Some (joinRoom (generateCode r)).
Proof.
  intros Hd H0 H1.
  destruct (generateCode_range r Hd H0 H1) as (n & -> & Hn).
  pose proof every_code_ok as Hall. rewrite forallb_forall in Hall.
  specialize (Hall (Z.to_nat n)). rewrite Z2Nat.id in Hall by lia.
  assert (codeOk (pretty n) = true) as Hok.
  { apply Hall, in_seq. lia. }
  unfold codeOk in Hok.
  apply andb_prop in Hok as [Hok Hlen]. apply andb_prop in Hok as [Hacc Hsame].
  apply String.eqb_eq in Hsame. apply Nat.eqb_eq in Hlen.
  split; [done|]. split; [done|]. split; [done|].
  unfold joinRequest. by rewrite Hsame, Hacc.
Qed.

Lemma generated_code_is_accepted_witness :
  joinRequest
    (handleCodeChange
       (generateCode (5404319552844595 # 18014398509481984)))
  = Some (joinRoom "3700").
Proof.
  exact (proj2 (proj2 (proj2
           (generated_code_is_accepted
              (5404319552844595 # 18014398509481984)
              ltac:(reflexivity) ltac:(discriminate)
              ltac:(reflexivity))))).
Defined.

Lemma removeNonDigits_allDigits (s : string) :
  allDigits (removeNonDigits s) = true.
Proof.
  induction s as [|c s IH]; [done|]. simpl.
  destruct (isDigit c) eqn:E; [|done]. simpl. by rewrite E.
Qed.

Lemma removeNonDigits_id (s : string) :
  allDigits s = true -> removeNonDigits s = s.
Proof.
  induction s as [|c s IH]; [done|]. simpl.
  intros [Hc Hs]%andb_prop. rewrite Hc. by rewrite IH.
Qed.

Lemma substring_allDigits (n : nat) (s : string) :
  allDigits s = true -> allDigits (String.substring 0 n s) = true.
Proof.
  revert n. induction s as [|c s IH]; intros [|n]; try done. simpl.
  intros [Hc Hs]%andb_prop. rewrite Hc. by apply IH.
Qed.

Lemma substring_length_le (n : nat) (s : string) :
  (String.length (String.substring 0 n s) <= n)%nat.
Proof.
  revert n. induction s as [|c s IH]; intros [|n]; simpl; try lia.
  specialize (IH n). lia.
Qed.

Lemma substring_short (n : nat) (s : string) :
  (String.length s <= n)%nat -> String.substring 0 n s = s.
Proof.
  revert n. induction s as [|c s IH]; intros [|n]; simpl; try done; try lia.
  intros H. rewrite IH; [done|lia].
Qed.

Lemma fourDigits_allDigits (s : string) :
  fourDigits s = true <-> String.length s = 4%nat /\ allDigits s = true.
Proof.
  split.
  - destruct s as [|a [|b [|c [|d [|e s]]]]]; try done. simpl.
    intros H. split; [done|].
    by destruct (isDigit a), (isDigit b), (isDigit c), (isDigit d).
  - intros [Hlen H].
    destruct s as [|a [|b [|c [|d [|e s]]]]]; try done. simpl in *.
    by destruct (isDigit a), (isDigit b), (isDigit c), (isDigit d).
Qed.

(** X2.  Whatever is typed or pasted into the code field,
    [handleCodeChange] stores at most four characters, all of them digits,
    and storing what is stored changes nothing; the digits of the input
    are kept in order, so an input of digits only is cut to its first
    four.  A stored code passes the guard of [handleConnect] exactly when
    it has four characters, which is when the Enter key and the button
    call it: the page never shows its "valid 4-digit code" error for a
    code it lets the user submit. *)
Theorem code_field_holds_digits (value : string) :
  (String.length (handleCodeChange value) <= 4)%nat
  /\ allDigits (handleCodeChange value) = true
  /\ handleCodeChange (handleCodeChange value) = handleCodeChange value
  /\ (allDigits value = true ->
      handleCodeChange value = String.substring 0 4 value)
  /\ (handleConnect_accepts (handleCodeChange value) = true
      <-> String.length (handleCodeChange value) = 4%nat).
Proof.
  assert (allDigits (handleCodeChange value) = true) as Hdigits
    by apply substring_allDigits, removeNonDigits_allDigits.
  split; [apply substring_length_le|]. split; [done|]. split; [|split].
  - unfold handleCodeChange at 1. rewrite removeNonDigits_id by done.
    apply substring_short, substring_length_le.
  - intros Hv. unfold handleCodeChange. by rewrite removeNonDigits_id.
  - unfold handleConnect_accepts. rewrite negb_orb, !negb_involutive.
    rewrite andb_true_iff, Nat.eqb_eq, fourDigits_allDigits. tauto.
Qed.

(** ** More of the signaling server *)

(** X3.  The loop of [generateUniqueCode] ends exactly when one of the
    draws gives a code that is not in the registry, and then it returns
    the code of the first such draw: every draw before it gave a code that
    was taken, and the code returned is free. *)
Theorem generateUniqueCode_first_free (rs : gmap string room)
    (draws : list Q) :
  (is_Some (generateUniqueCode rs draws)
   <-> exists r, r ∈ draws /\ rs !! generateCode r = None)
  /\ forall code,
       generateUniqueCode rs draws = Some code ->
       exists taken r rest,
         draws = taken ++ r :: rest
         /\ code = generateCode r
         /\ rs !! code = None
         /\ Forall (fun q => is_Some (rs !! generateCode q)) taken.
Proof.
  split.
  - split.
    + intros [code (Hnone & r & Hr & ->)%generateUniqueCode_fresh].
      by exists r.
    + intros (r & Hr & Hfree). by eapply generateUniqueCode_returns.
  - induction draws as [|q draws IH]; [done|]. intros code. simpl.
    destruct (decide (is_Some (rs !! generateCode q))) as [Htaken|Hfree].
    + intros (taken & r & rest & -> & -> & Hnone & Hall)%IH.
      exists (q :: taken), r, rest. repeat split; try done.
      by constructor.
    + intros [= <-]. exists [], q, draws. repeat split; try done.
      by apply eq_None_not_Some.
Qed.

Lemma create_room_state_witness :
  clients paired !! 1%nat = Some (Client OPEN (Some "5500") (Some RSender)).
Proof. reflexivity. Defined.

(** X4.  A [create-room] that is handled files one new room, with the
    caller as sender and no receiver, under a code that was free; every
    room that was in the registry is there as it was, so the registry has
    one room more; the caller alone is answered, with [room-created] and
    the code; and no other connection's closure changes. *)
Theorem create_room_adds_one_room b draws ws c message st st' out :
  clients st !! ws = Some c ->
  tag_of b (get_prop message "type") = CreateRoom ->
  on_message b draws ws (Some message) st = Returned st' out ->
  exists code,
    rooms st !! code = None
    /\ rooms st' = <[code := Room ws None]> (rooms st)
    /\ base.size (rooms st') = S (base.size (rooms st))
    /\ (forall code' rm,
          rooms st !! code' = Some rm -> rooms st' !! code' = Some rm)
    /\ out = sendMessage st ws
               (obj [("type", str "room-created"); ("code", str code)])
    /\ forall w, w <> ws -> clients st' !! w = clients st !! w.
Proof.
  intros Hc Ht. rewrite (on_message_create _ _ _ c) by done.
  destruct (generateUniqueCode (rooms st) draws) as [code|] eqn:Hg; [|done].
  intros [= <- <-]. exists code.
  apply generateUniqueCode_fresh in Hg as [Hfree _]. simpl.
  split; [done|]. split; [done|].
  split; [by apply map_size_insert_None|]. split; [|split; [done|]].
  - intros code' rm Hrm. rewrite lookup_insert_ne; [done|].
    intros ->. by rewrite Hfree in Hrm.
  - intros w Hw. by rewrite lookup_insert_ne.
Qed.

Lemma create_room_adds_one_room_witness :
  exists code,
    rooms paired !! code = None
    /\ rooms rebound = <[code := Room 1 None]> (rooms paired)
    /\ base.size (rooms rebound) = S (base.size (rooms paired)).
Proof.
  destruct (create_room_adds_one_room ServerJs [0%Q] 1 _ createRoom paired
              rebound _ create_room_state_witness eq_refl second_create_room)
    as (code & Hfree & Hrooms & Hsize & _).
  exists code. split; [exact Hfree|]. split; [exact Hrooms|exact Hsize].
Defined.

(** *** Who is sent what *)

Lemma currentRoom_Some st c rm :
  currentRoom st c = Some rm ->
  exists code, currentCode c = Some code /\ code <> ""
               /\ rooms st !! code = Some rm.
Proof.
  unfold currentRoom. destruct (currentCode c) as [code|]; [|done].
  destruct (String.eqb code "") eqn:E; [done|]. intros Hrm.
  exists code. split; [done|]. split; [|done].
  intros ->. by rewrite String.eqb_refl in E.
Qed.

Lemma elem_of_sendMessage st ws message p m :
  (p, m) ∈ sendMessage st ws message ->
  p = ws /\ is_open st p = true /\ m = message.
Proof.
  intros H. by apply (elem_of_sendIfPresent st (Some ws)) in H as [[= <-] ?].
Qed.

(** What closing a connection does to the state. *)
Lemma on_close_effect ws st st' out :
  on_close ws st = (st', out) ->
  (st' = st /\ out = [] /\ clients st !! ws = None)
  \/ exists c,
       clients st !! ws = Some c
       /\ clients st'
          = <[ws := Client CLOSED (currentCode c) (currentRole c)]>
              (clients st)
       /\ ((rooms st' = rooms st /\ out = []
            /\ currentRoom st c = None)
           \/ exists code rm,
                currentCode c = Some code /\ code <> ""
                /\ rooms st !! code = Some rm
                /\ rooms st' = delete code (rooms st)
                /\ out = sendIfPresent st' (otherPeer (currentRole c) rm)
                           (obj [("type", str "peer-disconnected");
                                 ("message",
                                  str ("The " ++ role_name (currentRole c)
                                       ++ " has disconnected")%string)])).
Proof.
  unfold on_close. destruct (clients st !! ws) as [c|] eqn:Hc;
    [|intros [= <- <-]; by left].
  intros H. right. exists c. split; [done|].
  unfold handleDisconnect, currentRoom in *.
  destruct (currentCode c) as [code|]; [|injection H as <- <-; auto].
  destruct (String.eqb code "") eqn:E; [injection H as <- <-; auto|].
  simpl in H. destruct (rooms st !! code) as [rm|] eqn:Hrm;
    [|injection H as <- <-; auto].
  injection H as <- <-. split; [done|]. right. exists code, rm.
  repeat split; try done. intros ->. by rewrite String.eqb_refl in E.
Qed.

(** Who a handled message is sent on to. *)
Lemma on_message_recipients b draws ws data st st' out p m :
  on_message b draws ws data st = Returned st' out ->
  (p, m) ∈ out ->
  is_open st p = true
  /\ (p = ws
      \/ exists code rm,
           rooms st !! code = Some rm /\ holds rm p
           /\ ((exists c, clients st !! ws = Some c
                          /\ currentCode c = Some code)
               \/ exists message,
                    data = Some message
                    /\ get_prop message "code" = str code)).
Proof.
  unfold on_message. destruct (clients st !! ws) as [c|] eqn:Hc;
    [|by intros [= _ <-] ?%elem_of_nil].
  assert (forall rm peer message0,
            currentRoom st c = Some rm ->
            (p, m) ∈ sendIfPresent st peer message0 ->
            (peer = Some p -> holds rm p) ->
            is_open st p = true
            /\ (p = ws
                \/ exists code rm0,
                     rooms st !! code = Some rm0 /\ holds rm0 p
                     /\ ((exists c0, Some c = Some c0
                                     /\ currentCode c0 = Some code)
                         \/ exists message1,
                              data = Some message1
                              /\ get_prop message1 "code" = str code)))
    as Hroom.
  { intros rm peer message0 (code & Hcode & _ & Hrm)%currentRoom_Some
      (Hpeer & Hopen & _)%elem_of_sendIfPresent Hholds.
    split; [done|]. right. exists code, rm. split; [done|].
    split; [by apply Hholds|]. left. by exists c. }
  destruct data as [message|];
    [|intros [= _ <-] (-> & ? & _)%elem_of_sendMessage; by auto].
  destruct message as [|b0|n|s0|l|fs]; [by intros [=]| | | | |].
  1-4: unfold dispatch; simpl; by intros [= _ <-] ?%elem_of_nil.
  unfold dispatch. destruct (tag_of b (get_prop (JObj fs) "type")).
  - destruct (generateUniqueCode (rooms st) draws) as [code|]; [|done].
    intros [= _ <-] (-> & Hopen & _)%elem_of_sendMessage.
    rewrite is_open_rebind in Hopen by done. auto.
  - unfold roomOfKey.
    destruct (get_prop (JObj fs) "code") as [[| | |code| |]|] eqn:Hcode;
      try (intros [= _ <-] (-> & ? & _)%elem_of_sendMessage; by auto).
    destruct (rooms st !! code) as [rm|] eqn:Hrm;
      [|intros [= _ <-] (-> & ? & _)%elem_of_sendMessage; by auto].
    destruct (receiver rm);
      [intros [= _ <-] (-> & ? & _)%elem_of_sendMessage; by auto|].
    intros [= _ <-] [H|H]%elem_of_app;
      apply elem_of_sendMessage in H as (-> & Hopen & _);
      rewrite is_open_rebind in Hopen by done; [by auto|].
    split; [done|]. right. exists code, rm. split; [done|].
    split; [by left|]. right. by exists (JObj fs).
  - destruct (currentRoom st c) as [rm|] eqn:Hroom';
      [|by intros [= _ <-] ?%elem_of_nil].
    intros [= _ <-] H. eapply (Hroom rm (receiver rm)); [done|exact H|].
    intros ?. by right.
  - destruct (currentRoom st c) as [rm|] eqn:Hroom';
      [|by intros [= _ <-] ?%elem_of_nil].
    intros [= _ <-] H.
    eapply (Hroom rm (Some (sender rm))); [done|exact H|].
    intros [= <-]. by left.
  - destruct (currentRoom st c) as [rm|] eqn:Hroom';
      [|by intros [= _ <-] ?%elem_of_nil].
    intros [= _ <-] H.
    eapply (Hroom rm (otherPeer (currentRole c) rm)); [done|exact H|].
    destruct (currentRole c) as [[|]|]; simpl; intros ?; simplify_eq;
      (by left) || by right.
  - destruct (currentRoom st c) as [rm|] eqn:Hroom';
      [|by intros [= _ <-] ?%elem_of_nil].
    intros [= _ <-] H. eapply (Hroom rm (receiver rm)); [done|exact H|].
    intros ?. by right.
  - destruct (currentRoom st c) as [rm|] eqn:Hroom';
      [|by intros [= _ <-] ?%elem_of_nil].
    intros [= _ <-] H.
    eapply (Hroom rm (otherPeer (currentRole c) rm)); [done|exact H|].
    destruct (currentRole c) as [[|]|]; simpl; intros ?; simplify_eq;
      (by left) || by right.
  - by intros [= _ <-] ?%elem_of_nil.
Qed.

Lemma on_message_is_open b draws ws data st st' out p :
  on_message b draws ws data st = Returned st' out ->
  is_open st' p = is_open st p.
Proof.
  intros [->|[H|H]]%on_message_effect; [done|..].
  - destruct H as (message & c & code & _ & Hc & _ & _ & ->).
    by rewrite is_open_rebind.
  - destruct H as (message & c & code & rm & _ & Hc & _ & _ & _ & _ & ->).
    by rewrite is_open_rebind.
Qed.

Lemma offer_of_sender_in_paired :
  step ServerJs paired
    (Message 1 (Some (obj [("type", str "offer"); ("offer", str "sdp")])) [])
  = Returned paired
      [(2%nat, obj [("type", str "offer"); ("offer", str "sdp")])].
Proof. vm_compute. reflexivity. Defined.

(** X5.  Whatever the event, the server writes only to sockets that are
    open when the handler is done, and only to the connection the event
    came from or to a connection in a slot of one room: the room filed
    under the code that connection's closure holds, or, for a
    [join-room], the room filed under the code the message names.  No
    other connection is sent anything. *)
Theorem sends_only_to_open_room_members b st ev st' out p m :
  step b st ev = Returned st' out ->
  (p, m) ∈ out ->
  is_open st' p = true
  /\ (p = conn_of ev
      \/ exists code rm,
           rooms st !! code = Some rm /\ holds rm p
           /\ ((exists c, clients st !! conn_of ev = Some c
                          /\ currentCode c = Some code)
               \/ exists draws message,
                    ev = Message (conn_of ev) (Some message) draws
                    /\ get_prop message "code" = str code)).
Proof.
  destruct ev as [ws|ws data draws|ws]; simpl.
  - by intros [= _ <-] ?%elem_of_nil.
  - intros Hrun Hin.
    destruct (on_message_recipients _ _ _ _ _ _ _ _ _ Hrun Hin)
      as [Hopen Hwho].
    split; [by rewrite (on_message_is_open _ _ _ _ _ _ _ _ Hrun)|].
    destruct Hwho as [->|(code & rm & Hrm & Hholds & Hcode)]; [by left|].
    right. exists code, rm. split; [done|]. split; [done|].
    destruct Hcode as [?|(message & -> & ?)]; [by left|].
    right. by exists draws, message.
  - destruct (on_close ws st) as [st1 out1] eqn:Hclose. intros [= <- <-] Hin.
    apply on_close_effect in Hclose
      as [(_ & -> & _)|(c & Hc & _ & [(_ & -> & _)|H])];
      [by apply elem_of_nil in Hin..|].
    destruct H as (code & rm & Hcode & _ & Hrm & _ & ->).
    apply elem_of_sendIfPresent in Hin as (Hpeer & Hopen & _).
    split; [done|]. right. exists code, rm. split; [done|]. split.
    + destruct (currentRole c) as [[|]|]; simpl in Hpeer; simplify_eq;
        (by left) || by right.
    + left. by exists c.
Qed.

Lemma sends_only_to_open_room_members_witness :
  is_open paired 2 = true
  /\ (2%nat = 1%nat
      \/ exists code rm,
           rooms paired !! code = Some rm /\ holds rm 2
           /\ ((exists c, clients paired !! 1%nat = Some c
                          /\ currentCode c = Some code)
               \/ exists draws message,
                    Message 1
                      (Some (obj [("type", str "offer");
                                  ("offer", str "sdp")])) []
                    = Message 1 (Some message) draws
                    /\ get_prop message "code" = str code)).
Proof.
  apply (sends_only_to_open_room_members ServerJs paired _ paired _ 2%nat
           (obj [("type", str "offer"); ("offer", str "sdp")])
           offer_of_sender_in_paired).
  apply list_elem_of_singleton. reflexivity.
Defined.

(** X6.  Input the server cannot use.  Data that [JSON.parse] rejects is
    answered with the error "Invalid message format", to the sender alone,
    and changes nothing.  JSON that is not an object (a number, a string,
    a boolean, an array), an object without a [type], and an object whose
    [type] is not a string are ignored: nothing is sent, nothing changes.
    The JSON text [null] is the exception: the handler throws at the read
    of [message.type], outside its [try]. *)
Theorem unusable_input b draws ws c st :
  clients st !! ws = Some c ->
  on_message b draws ws None st
  = Returned st (sendMessage st ws (errorMessage "Invalid message format"))
  /\ on_message b draws ws (Some JNull) st = Threw
  /\ (forall message,
        message <> JNull ->
        (forall fs, message = JObj fs ->
                    forall s, assoc "type" fs <> Some (JStr s)) ->
        on_message b draws ws (Some message) st = Returned st [])
  /\ (forall message,
        message <> JNull ->
        tag_of b (get_prop message "type") = Unknown ->
        on_message b draws ws (Some message) st = Returned st []).
Proof.
  intros Hc. unfold on_message. rewrite Hc. split; [done|]. split; [done|].
  split.
  - intros message Hnull Hfs.
    destruct message as [|b0|n|s0|l|fs]; [done|done..|].
    unfold dispatch. simpl. specialize (Hfs fs eq_refl).
    destruct (assoc "type" fs) as [[| | |s| |]|]; try done.
    by destruct (Hfs s).
  - intros message Hnull Ht. unfold dispatch. rewrite Ht.
    by destruct message.
Qed.

Lemma unusable_input_witness :
  on_message ServerNocmtJs [] 1 None paired
  = Returned paired [(1%nat, errorMessage "Invalid message format")]
  /\ on_message ServerNocmtJs [] 1 (Some (JArr [JNum 1])) paired
     = Returned paired [].
Proof.
  destruct (unusable_input ServerNocmtJs [] 1 _ paired
              create_room_state_witness) as (Herror & _ & Hignored & _).
  split; [exact Herror|].
  apply Hignored; [discriminate|]. intros fs Hfs. discriminate Hfs.
Defined.

(** *** A room between two closes *)

Lemma room_eta (rm rm' : room) :
  sender rm' = sender rm -> receiver rm' = receiver rm -> rm' = rm.
Proof. destruct rm, rm'; simpl; by intros -> ->. Qed.

Lemma paired_and_third_open : is_open paired_and_third 3 = true.
Proof. reflexivity. Defined.

(** X7.  Once a room has its receiver, no run of new connections and
    messages, whoever sends them, takes the room out of the registry or
    changes either of its slots; so every [join-room] for its code that
    comes after such a run is refused with "Room is full. Someone already
    joined." and changes nothing. *)
Theorem full_room_stays_full b st evs st' outs code rm p :
  run b st evs = Some (st', outs) ->
  forallb (fun ev => negb (isClose ev)) evs = true ->
  rooms st !! code = Some rm ->
  receiver rm = Some p ->
  rooms st' !! code = Some rm
  /\ forall draws w message,
       is_open st' w = true ->
       get_prop message "type" = str "join-room" ->
       get_prop message "code" = str code ->
       on_message b draws w (Some message) st'
       = Returned st'
           [(w, errorMessage "Room is full. Someone already joined.")].
Proof.
  intros Hrun Hevs Hrm Hp.
  assert (rooms st' !! code = Some rm) as Hrm'.
  { revert st outs Hrun Hrm. induction evs as [|ev evs IH];
      intros st outs Hrun Hrm; [by injection Hrun as <- _|].
    simpl in Hrun, Hevs. apply andb_prop in Hevs as [Hev Hevs].
    destruct (step b st ev) as [st1 out1| |] eqn:Hstep; [|done..].
    destruct (run b st1 evs) as [[st2 outs2]|] eqn:Hrest; [|done].
    injection Hrun as <- _. apply (IH Hevs st1 outs2 Hrest).
    destruct ev as [w|w data draws|w]; simpl in Hstep; [| |done].
    - injection Hstep as <- _. unfold on_connection.
      by destruct (clients st !! w).
    - destruct (on_message_keeps_rooms _ _ _ _ _ _ _ _ _ Hstep Hrm)
        as (rm1 & -> & Hs & Hr).
      f_equal. apply room_eta; [done|]. apply Hr. rewrite Hp. by eexists. }
  split; [done|]. intros draws w message Hopen Ht Hcode.
  destruct (is_open_client _ _ Hopen) as [c Hc].
  rewrite (on_message_join _ _ _ c) by done.
  rewrite Hcode. simpl. rewrite Hrm', Hp. unfold sendMessage.
  by rewrite Hopen.
Qed.

Lemma third_connects :
  run ServerJs paired
    [Message 2 (Some (obj [("type", str "answer"); ("answer", str "sdp")]))
       [];
     Connection 3]
  = Some (paired_and_third,
          [[(1%nat, obj [("type", str "answer"); ("answer", str "sdp")])];
           []]).
Proof. vm_compute. reflexivity. Defined.

Lemma full_room_stays_full_witness :
  on_message ServerJs [] 3 (Some (joinRoom "5500")) paired_and_third
  = Returned paired_and_third
      [(3%nat, errorMessage "Room is full. Someone already joined.")].
Proof.
  exact (proj2 (full_room_stays_full ServerJs paired _ paired_and_third _
                  "5500" (Room 1 (Some 2)) 2
                  third_connects eq_refl eq_refl eq_refl)
           [] 3%nat (joinRoom "5500") paired_and_third_open eq_refl eq_refl).
Defined.

(** *** Closing, again *)

Lemma setClient_id st ws c :
  clients st !! ws = Some c -> setClient st ws c = st.
Proof.
  intros Hc. destruct st as [rs cs]. unfold setClient; simpl in *.
  by rewrite insert_id.
Qed.

Lemma handleDisconnect_clients code r st :
  clients (fst (handleDisconnect code r st)) = clients st.
Proof.
  unfold handleDisconnect. destruct code as [code|]; [|done].
  destruct (String.eqb code ""); [done|].
  by destruct (rooms st !! code).
Qed.

Lemma handleDisconnect_twice code r st :
  handleDisconnect code r (fst (handleDisconnect code r st))
  = (fst (handleDisconnect code r st), []).
Proof.
  destruct code as [code|]; [|done].
  destruct (handleDisconnect (Some code) r st) as [st1 out1] eqn:H.
  cbn [fst]. unfold handleDisconnect in *.
  destruct (String.eqb code "") eqn:E; [by injection H as <- _|].
  destruct (rooms st !! code) as [rm|] eqn:Hrm; injection H as <- _; simpl.
  - by rewrite lookup_delete_eq.
  - by rewrite Hrm.
Qed.

(** X8.  Cleaning up twice is cleaning up once: a second [close] of a
    connection, right after the first, finds no room under the
    connection's code, sends nothing and leaves the state as the first
    close left it. *)
Theorem close_twice ws st :
  on_close ws (fst (on_close ws st)) = (fst (on_close ws st), []).
Proof.
  unfold on_close at 2 3. destruct (clients st !! ws) as [c|] eqn:Hc.
  - set (c' := Client CLOSED (currentCode c) (currentRole c)).
    set (st1 := fst (handleDisconnect (currentCode c) (currentRole c)
                       (setClient st ws c'))).
    assert (clients st1 !! ws = Some c') as Hc1.
    { unfold st1. rewrite handleDisconnect_clients. apply lookup_insert_eq. }
    unfold on_close. rewrite Hc1.
    change (Client CLOSED (currentCode c') (currentRole c')) with c'.
    rewrite (setClient_id st1 ws c' Hc1). apply handleDisconnect_twice.
  - simpl. unfold on_close. by rewrite Hc.
Qed.

Lemma on_close_bound st ws code r rm :
  bound st ws code r rm ->
  rooms (fst (on_close ws st)) = delete code (rooms st)
  /\ clients (fst (on_close ws st))
     = <[ws := Client CLOSED (Some code) (Some r)]> (clients st).
Proof.
  intros [(c & Hc & Hcode & Hrole) (Hne & Hrm & _)].
  unfold on_close. rewrite Hc, Hcode, Hrole.
  by rewrite (handleDisconnect_room _ _ rm).
Qed.

Lemma third_in_closed_room :
  clients (fst (on_close 2 paired_and_third)) !! 3%nat
  = Some (Client OPEN None None).
Proof. reflexivity. Defined.

Lemma paired_and_third_bound :
  bound paired_and_third 2 "5500" RReceiver (Room 1 (Some 2)).
Proof.
  split; [|split; [|split]]; [|discriminate|reflexivity|reflexivity].
  exists (Client OPEN (Some "5500") (Some RReceiver)). by split.
Defined.

(** X9.  The code of a room is free again as soon as a connection bound
    to the room has closed: a [create-room] that comes next, from any
    connection, and whose first draw gives that code is given it, for a
    new room that holds the caller alone. *)
Theorem closed_room_code_is_free_again b q draws ws w cw code r rm message
    st :
  bound st ws code r rm ->
  clients (fst (on_close ws st)) !! w = Some cw ->
  generateCode q = code ->
  tag_of b (get_prop message "type") = CreateRoom ->
  exists st',
    on_message b (q :: draws) w (Some message) (fst (on_close ws st))
    = Returned st'
        (sendMessage (fst (on_close ws st)) w
           (obj [("type", str "room-created"); ("code", str code)]))
    /\ rooms st' !! code = Some (Room w None).
Proof.
  intros [Hrooms _]%on_close_bound Hcw Hq Ht.
  rewrite (on_message_create _ _ _ cw) by done.
  simpl. rewrite Hq, Hrooms, lookup_delete_eq.
  rewrite decide_False by by intros [? ?].
  eexists. split; [reflexivity|]. simpl. apply lookup_insert_eq.
Qed.

Lemma closed_room_code_is_free_again_witness :
  exists st',
    on_message ServerJs [1 # 2] 3 (Some createRoom)
      (fst (on_close 2 paired_and_third))
    = Returned st'
        (sendMessage (fst (on_close 2 paired_and_third)) 3
           (obj [("type", str "room-created"); ("code", str "5500")]))
    /\ rooms st' !! "5500" = Some (Room 3 None).
Proof.
  exact (closed_room_code_is_free_again ServerJs (1 # 2) [] 2 3 _ "5500"
           RReceiver (Room 1 (Some 2)) createRoom paired_and_third
           paired_and_third_bound third_in_closed_room eq_refl eq_refl).
Defined.

Lemma paired_sender_client :
  clients paired !! 1%nat = Some (Client OPEN (Some "5500") (Some RSender)).
Proof. reflexivity. Defined.

Lemma step_other_client b st ev st' out p :
  step b st ev = Returned st' out ->
  conn_of ev <> p ->
  clients st' !! p = clients st !! p.
Proof.
  intros Hstep Hp. destruct ev as [w|w data draws|w]; simpl in *.
  - injection Hstep as <- _. unfold on_connection.
    destruct (clients st !! w); [done|]. simpl.
    by rewrite lookup_insert_ne.
  - apply on_message_effect in Hstep as [->|[H|H]]; [done|..].
    + destruct H as (m & c & code' & _ & _ & _ & _ & ->). simpl.
      by rewrite lookup_insert_ne.
    + destruct H as (m & c & code' & rm0 & _ & _ & _ & _ & _ & _ & ->).
      simpl. by rewrite lookup_insert_ne.
  - destruct (on_close w st) as [st1 out1] eqn:Hclose.
    injection Hstep as <- _.
    apply on_close_effect in Hclose as [(-> & _)|(c & _ & -> & _)];
      [done|]. by rewrite lookup_insert_ne.
Qed.

Lemma run_other_client b st evs st' outs p :
  run b st evs = Some (st', outs) ->
  Forall (fun ev => conn_of ev <> p) evs ->
  clients st' !! p = clients st !! p.
Proof.
  revert st outs. induction evs as [|ev evs IH]; intros st outs Hrun Hall.
  - by injection Hrun as <- _.
  - simpl in Hrun. destruct (step b st ev) as [st1 out1| |] eqn:Hstep;
      [|done..].
    destruct (run b st1 evs) as [[st2 outs2]|] eqn:Hrest; [|done].
    injection Hrun as <- _. apply Forall_cons in Hall as [Hev Hall].
    rewrite (IH _ _ Hrest Hall). by eapply step_other_client.
Qed.

(** X10.  After a connection bound to a room has closed, the room is
    gone from the registry.  The other connection of the room keeps the
    code in its closure; and at any later moment at which no room is
    filed under that code, whatever connections, messages and closes of
    others have come in between, what it sends for the room is dropped:
    its [offer], [answer], [ice-candidate], [file-meta] and
    [session-ended] messages are handled without an error reply, without
    anything being sent to anyone and without a change of state.  (When
    the code has been drawn again for a new room, they go to that room:
    lemma [stale_code_reaches_a_stranger].) *)
Theorem survivor_is_not_answered b draws ws p cp code r rm message st evs
    st' outs :
  bound st ws code r rm ->
  p <> ws ->
  clients st !! p = Some cp ->
  currentCode cp = Some code ->
  run b (fst (on_close ws st)) evs = Some (st', outs) ->
  Forall (fun ev => conn_of ev <> p) evs ->
  payload (tag_of b (get_prop message "type")) = true
  \/ tag_of b (get_prop message "type") = SessionEnded ->
  rooms (fst (on_close ws st)) !! code = None
  /\ (rooms st' !! code = None ->
      on_message b draws p (Some message) st' = Returned st' []).
Proof.
  intros [Hrooms Hclients]%on_close_bound Hp Hcp Hcode Hrun Hquiet Ht.
  split; [by rewrite Hrooms, lookup_delete_eq|]. intros Hfree.
  assert (clients st' !! p = Some cp) as Hcp'.
  { rewrite (run_other_client _ _ _ _ _ _ Hrun Hquiet).
    by rewrite Hclients, lookup_insert_ne. }
  assert (currentRoom st' cp = None) as Hgone.
  { unfold currentRoom. rewrite Hcode, Hfree.
    by destruct (String.eqb code ""). }
  rewrite (on_message_dispatch _ _ _ cp); [|done|].
  - unfold dispatch.
    destruct (tag_of b (get_prop message "type"));
      destruct Ht as [Ht|Ht]; try discriminate Ht; by rewrite Hgone.
  - apply (tag_not_null b). intros Hu. rewrite Hu in Ht.
    by destruct Ht.
Qed.

Lemma survivor_is_not_answered_witness :
  match
    run ServerJs (fst (on_close 2 paired))
      [Connection 3; Message 3 (Some createRoom) [0%Q]]
  with
  | Some (st', _) =>
      on_message ServerJs [] 1
        (Some (obj [("type", str "offer"); ("offer", str "sdp")])) st'
      = Returned st' []
  | None => False
  end.
Proof.
  destruct (run ServerJs (fst (on_close 2 paired))
              [Connection 3; Message 3 (Some createRoom) [0%Q]])
    as [[st' outs]|] eqn:Hrun.
  - assert (rooms st' !! "5500" = None) as Hfree.
    { vm_compute in Hrun. injection Hrun as <- _. reflexivity. }
    assert (Forall (fun ev => conn_of ev <> 1%nat)
              [Connection 3; Message 3 (Some createRoom) [0%Q]]) as Hquiet
      by (repeat constructor; discriminate).
    exact (proj2 (survivor_is_not_answered ServerJs [] 2 1
                    (Client OPEN (Some "5500") (Some RSender)) "5500"
                    RReceiver (Room 1 (Some 2))
                    (obj [("type", str "offer"); ("offer", str "sdp")])
                    paired _ st' outs paired_bound_receiver
                    ltac:(discriminate) paired_sender_client eq_refl Hrun
                    Hquiet (or_introl eq_refl)) Hfree).
  - vm_compute in Hrun. discriminate Hrun.
Defined.

(** *** What holds in every state the server gets to *)

Lemma step_vars_together b st ev st' out :
  step b st ev = Returned st' out -> vars_together st -> vars_together st'.
Proof.
  intros Hstep Hst w cw. destruct ev as [ws|ws data draws|ws]; simpl in Hstep.
  - injection Hstep as <- _. unfold on_connection.
    destruct (clients st !! ws) eqn:Hws; [apply Hst|]. simpl.
    intros [[<- <-]|[_ ?]]%lookup_insert_Some; [done|by eapply Hst].
  - apply on_message_effect in Hstep as [->|[H|H]]; [apply Hst|..].
    + destruct H as (message & c & code & _ & _ & _ & _ & ->). simpl.
      intros [[<- <-]|[_ ?]]%lookup_insert_Some; [done|by eapply Hst].
    + destruct H as (message & c & code & rm & _ & _ & _ & _ & _ & _ & ->).
      simpl.
      intros [[<- <-]|[_ ?]]%lookup_insert_Some; [done|by eapply Hst].
  - destruct (on_close ws st) as [st1 out1] eqn:Hclose.
    injection Hstep as <- _.
    apply on_close_effect in Hclose as [(-> & _)|(c & Hc & -> & _)];
      [apply Hst|].
    intros [[<- <-]|[_ ?]]%lookup_insert_Some; [|by eapply Hst].
    simpl. by eapply Hst.
Qed.

Lemma is_Some_after_insert (cs : gmap conn client) ws c p :
  is_Some (cs !! p) -> is_Some (<[ws := c]> cs !! p).
Proof. intros H. apply lookup_insert_is_Some'. by right. Qed.

Lemma step_members_known b st ev st' out :
  step b st ev = Returned st' out -> members_known st -> members_known st'.
Proof.
  intros Hstep Hst code0 rm0.
  destruct ev as [ws|ws data draws|ws]; simpl in Hstep.
  - injection Hstep as <- _. unfold on_connection.
    destruct (clients st !! ws) eqn:Hws; [apply Hst|]. simpl.
    intros [Hs Hr]%Hst. split; [by apply is_Some_after_insert|].
    intros p Hp. by apply is_Some_after_insert, Hr.
  - apply on_message_effect in Hstep as [->|[H|H]]; [apply Hst|..].
    + destruct H as (message & c & code & _ & _ & _ & _ & ->). simpl.
      intros [[<- <-]|[_ Hrm]]%lookup_insert_Some; simpl.
      * split; [|done]. rewrite lookup_insert_eq. by eexists.
      * apply Hst in Hrm as [Hs Hr]. split; [by apply is_Some_after_insert|].
        intros p Hp. by apply is_Some_after_insert, Hr.
    + destruct H as (message & c & code & rm & _ & _ & _ & _ & Hrm & _ & ->).
      simpl.
      intros [[<- <-]|[_ Hrm0]]%lookup_insert_Some; simpl.
      * apply Hst in Hrm as [Hs _]. split; [by apply is_Some_after_insert|].
        intros p [= <-]. rewrite lookup_insert_eq. by eexists.
      * apply Hst in Hrm0 as [Hs Hr].
        split; [by apply is_Some_after_insert|].
        intros p Hp. by apply is_Some_after_insert, Hr.
  - destruct (on_close ws st) as [st1 out1] eqn:Hclose.
    injection Hstep as <- _.
    apply on_close_effect in Hclose as [(-> & _)|(c & Hc & Hcs & Hrs)];
      [apply Hst|].
    rewrite Hcs. intros Hrm0.
    assert (rooms st !! code0 = Some rm0) as Hrm.
    { destruct Hrs as [(Hrs & _)|(code & rm & _ & _ & _ & Hrs & _)];
        rewrite Hrs in Hrm0; [done|].
      by apply lookup_delete_Some in Hrm0 as [_ ?]. }
    apply Hst in Hrm as [Hs Hr]. split; [by apply is_Some_after_insert|].
    intros p Hp. by apply is_Some_after_insert, Hr.
Qed.

Lemma run_reachable b st evs st' outs :
  run b st evs = Some (st', outs) -> reachable b st -> reachable b st'.
Proof.
  revert st outs. induction evs as [|ev evs IH]; intros st outs Hrun Hst.
  - by injection Hrun as <- _.
  - simpl in Hrun. destruct (step b st ev) as [st1 out1| |] eqn:Hstep;
      [|done..].
    destruct (run b st1 evs) as [[st2 outs2]|] eqn:Hrest; [|done].
    injection Hrun as <- _. eapply IH; [done|].
    by eapply reachable_step.
Qed.

Lemma paired_run :
  run ServerJs init
    [Connection 1; Connection 2;
     Message 1 (Some createRoom) [1 # 2];
     Message 2 (Some (joinRoom "5500")) []]
  = Some (paired,
          [[]; [];
           [(1%nat, obj [("type", str "room-created");
                         ("code", str "5500")])];
           [(2%nat, obj [("type", str "room-joined");
                         ("code", str "5500")]);
            (1%nat, obj [("type", str "peer-joined")])]]).
Proof. vm_compute. reflexivity. Qed.

Lemma paired_is_reachable : reachable ServerJs paired.
Proof. exact (run_reachable _ _ _ _ _ paired_run (reachable_init _)). Qed.

(** X11.  In every state the server gets to from its start: a closure's
    code and role are [null] together; no room is filed under the empty
    string; the connections a room holds are connections the server has
    seen; and so the one message a [close] can send is [peer-disconnected]
    with the text for a sender or for a receiver, never for a role
    [null]. *)
Theorem reachable_state_is_well_formed b st :
  reachable b st ->
  vars_together st
  /\ codes_nonempty st
  /\ members_known st
  /\ forall ws st' out p m,
       on_close ws st = (st', out) ->
       (p, m) ∈ out ->
       exists r c, clients st !! ws = Some c /\ currentRole c = Some r
                   /\ m = peerDisconnected r /\ out = [(p, m)].
Proof.
  intros Hst.
  assert (vars_together st /\ members_known st) as [Hvars Hknown].
  { induction Hst as [|st ev st' out _ [IH1 IH2] Hstep].
    - split; intros ? ?; unfold init; simpl; by rewrite lookup_empty.
    - split; [by eapply step_vars_together|by eapply step_members_known]. }
  split; [done|]. split; [by eapply reachable_codes_nonempty|].
  split; [done|].
  intros ws st' out p m Hclose Hin.
  apply on_close_effect in Hclose
    as [(_ & -> & _)|(c & Hc & _ & [(_ & -> & _)|H])];
    [by apply elem_of_nil in Hin..|].
  destruct H as (code & rm & Hcode & _ & _ & _ & ->).
  destruct (currentRole c) as [r|] eqn:Hrole.
  - exists r, c. split; [done|]. split; [done|].
    apply elem_of_sendIfPresent in Hin as (Hpeer & Hopen & ->).
    split; [done|]. rewrite Hpeer. simpl. unfold sendMessage.
    by rewrite Hopen.
  - apply (Hvars ws c Hc) in Hrole. by rewrite Hrole in Hcode.
Qed.

Lemma reachable_state_is_well_formed_witness :
  vars_together paired /\ codes_nonempty paired /\ members_known paired.
Proof.
  destruct (reachable_state_is_well_formed ServerJs paired
              paired_is_reachable) as (H1 & H2 & H3 & _).
  split; [exact H1|]. split; [exact H2|exact H3].
Defined.

(** ** More of the sending side *)

(** X12.  The progress a transfer reports.  Whatever the channel's buffer
    does, [onProgress] has been called once for each chunk sent, in
    order, and the call for chunk [i] (from 0) says that
    [min((i + 1) * CHUNK_SIZE, file.size)] bytes of [file.size] are sent:
    the counts grow from call to call, never pass the size, and the last
    call of a transfer that has sent every chunk says the whole size. *)
Theorem progress_reports (file : File) (b0 : Z) (lows : list Z)
    (e : encoder) :
  transfer file b0 lows = Some e ->
  reports e
  = map (reportAt CHUNK_SIZE (length (content file))) (seq 0 (sentChunks e))
  /\ (sentChunks e <= ceilDiv (length (content file)) CHUNK_SIZE)%nat
  /\ (finished e = true ->
      sentChunks e = ceilDiv (length (content file)) CHUNK_SIZE
      /\ (content file <> [] ->
          last (reports e) = Some (size file, size file))).
Proof.
  unfold transfer. destruct (sendFile file b0) as [e0|] eqn:Hsend; [|done].
  intros [= <-].
  destruct (sendFile_reporting _ _ _ Hsend) as (cs & Hcs & He0).
  destruct (drain_reporting file cs lows e0 He0)
    as [(Hc & Hle & _ & _ & Hr) _].
  unfold chunkFile in Hcs. unfold finished. rewrite Hc, Hr.
  clear Hsend He0 Hc Hr. unfold size.
  generalize dependent (sentChunks (drain e0 lows)). intros s.
  generalize (reports (drain e0 lows)). intros _.
  revert Hcs. generalize CHUNK_SIZE_pos. generalize CHUNK_SIZE.
  generalize (content file). clear. intros buf F HF Hcs Hle.
  destruct (chunks_bounded _ HF _ _ Hcs) as [Hlen _].
  rewrite chunksOf_closed in Hcs by done.
  injection Hcs as <-. rewrite Hlen in *.
  split.
  { rewrite take_chunks by done.
    apply (runningTotals_chunkAt F buf (Z.of_nat (length buf)) 0). }
  split; [done|]. intros Hfin%Nat.leb_le.
  assert (s = ceilDiv (length buf) F) as -> by by apply Nat.le_antisymm.
  split; [done|]. intros Hbuf. rewrite take_ge by by rewrite Hlen.
  rewrite (runningTotals_chunkAt F buf (Z.of_nat (length buf)) 0).
  assert (0 < length buf)%nat as Hpos
    by (destruct buf; [done|simpl; lia]).
  pose proof (proj2 (lt_ceilDiv F HF buf 0)) as Hone.
  destruct (ceilDiv (length buf) F) as [|n] eqn:Hn; [lia|].
  rewrite seq_S, map_app. cbn [map]. rewrite last_snoc. do 2 f_equal.
  pose proof (proj2 (lt_ceilDiv F HF buf (S n))) as Hlast.
  rewrite Hn in Hlast. lia.
Qed.

Lemma progress_reports_witness :
  match transfer forty 0 [0%Z] with
  | Some e => reports e = [(40%Z, 40%Z)]
  | None => False
  end.
Proof.
  destruct (transfer forty 0 [0%Z]) as [e|] eqn:He.
  - destruct (progress_reports forty 0 [0%Z] e He) as [Hr _].
    rewrite Hr. vm_compute in He. injection He as <-.
    vm_compute. reflexivity.
  - vm_compute in He. discriminate He.
Defined.

(** *** Pacing *)

Lemma while_loop_buffer (F : nat) (rest : list (list Byte.byte))
    (e : encoder) :
  Forall (fun c => (length c <= F)%nat) rest ->
  (bufferedAmount e <= bufferedAmount (while_loop rest e)
   <= Z.max (bufferedAmount e) (BUFFER_THRESHOLD + Z.of_nat F))%Z.
Proof.
  intros Hrest. revert e. induction Hrest as [|c rest Hc _ IH]; intros e.
  - simpl. lia.
  - simpl. destruct (Z.leb_spec (bufferedAmount e) BUFFER_THRESHOLD).
    + specialize (IH (sendChunk c e)). simpl in IH. lia.
    + lia.
Qed.

Lemma sendNextChunk_buffer (F : nat) (e : encoder) :
  Forall (fun c => (length c <= F)%nat) (chunks e) ->
  (bufferedAmount (sendNextChunk e)
   <= Z.max (bufferedAmount e) (BUFFER_THRESHOLD + Z.of_nat F)
      + fileEndLength)%Z.
Proof.
  intros Hcs. unfold sendNextChunk.
  assert (Forall (fun c => (length c <= F)%nat)
            (drop (sentChunks e) (chunks e))) as Hrest
    by by apply Forall_drop.
  pose proof (while_loop_buffer F _ e Hrest) as Hb.
  destruct (length (chunks (while_loop _ e))
            <=? sentChunks (while_loop _ e))%nat; simpl;
    unfold fileEndLength in *; lia.
Qed.

Lemma drain_buffer (F : nat) (file : File) (cs : list (list Byte.byte))
    (lows : list Z) (b : Z) (e : encoder) :
  Forall (fun c => (length c <= F)%nat) cs ->
  reporting file cs e ->
  Forall (fun b => (b <= BUFFER_THRESHOLD)%Z) lows ->
  (bufferedAmount e <= b)%Z ->
  (BUFFER_THRESHOLD + Z.of_nat F + fileEndLength <= b)%Z ->
  (bufferedAmount (drain e lows) <= b)%Z.
Proof.
  intros Hcs He Hlows. revert e He.
  induction Hlows as [|b1 lows Hb1 _ IH]; intros e He Hb Hbig; [done|].
  simpl. destruct (onbufferedamountlow_reporting file cs b1 e He)
    as (He1 & _).
  apply IH; [done| |done].
  unfold onbufferedamountlow.
  etrans; [apply (sendNextChunk_buffer F)|].
  - simpl. by destruct He as (-> & _).
  - simpl. lia.
Qed.

(** X13.  The sender holds back.  A call of [sendNextChunk] that finds
    more than the threshold in the channel's buffer, with chunks still to
    go, does nothing at all.  So when sending starts at or under the
    threshold, and since the [bufferedamountlow] event comes at or under
    it, a transfer never has more in the buffer than the threshold, one
    chunk and the sentinel together: 64 KiB, 16 KiB and 19 bytes. *)
Theorem buffer_stays_bounded (file : File) (b0 : Z) (lows : list Z)
    (e : encoder) :
  (b0 <= BUFFER_THRESHOLD)%Z ->
  Forall (fun b => (b <= BUFFER_THRESHOLD)%Z) lows ->
  transfer file b0 lows = Some e ->
  (bufferedAmount e
   <= BUFFER_THRESHOLD + Z.of_nat CHUNK_SIZE + fileEndLength)%Z
  /\ forall e1 : encoder,
       (BUFFER_THRESHOLD < bufferedAmount e1)%Z ->
       (sentChunks e1 < length (chunks e1))%nat ->
       sendNextChunk e1 = e1.
Proof.
  intros Hb0 Hlows Hrun. split.
  - revert Hrun. unfold transfer, sendFile.
    destruct (chunkFile file) as [cs|] eqn:Hcs; [|intros [=]].
    intros [= <-].
    destruct (chunks_bounded _ CHUNK_SIZE_pos _ _ Hcs) as [_ Hbound].
    set (e0 := Encoder cs 0 0 (size file) b0 [Text (metadata file)] []).
    assert (reporting file cs e0) as He0.
    { unfold reporting, e0. cbn [chunks sentChunks total sentBytes reports].
      split; [reflexivity|]. split; [apply Nat.le_0_l|]. by repeat split. }
    apply (drain_buffer CHUNK_SIZE file cs lows
             (BUFFER_THRESHOLD + Z.of_nat CHUNK_SIZE + fileEndLength));
      [exact Hbound|by apply sendNextChunk_reporting|exact Hlows|
      |apply Z.le_refl].
    etrans; [apply (sendNextChunk_buffer CHUNK_SIZE); exact Hbound|].
    unfold e0. cbn [bufferedAmount].
    generalize (Nat2Z.is_nonneg CHUNK_SIZE).
    generalize (Z.of_nat CHUNK_SIZE). intros f Hf. lia.
  - intros e1 Hhigh Hmore. unfold sendNextChunk.
    destruct (drop (sentChunks e1) (chunks e1)) as [|c rest] eqn:Hrest.
    + apply (f_equal length) in Hrest. rewrite length_drop in Hrest.
      simpl in Hrest. lia.
    + simpl. destruct (Z.leb_spec (bufferedAmount e1) BUFFER_THRESHOLD);
        [lia|].
      destruct (Nat.leb_spec (length (chunks e1)) (sentChunks e1));
        [lia|done].
Qed.

Lemma buffer_stays_bounded_witness :
  match transfer forty 0 [0%Z] with
  | Some e =>
      (bufferedAmount e
       <= BUFFER_THRESHOLD + Z.of_nat CHUNK_SIZE + fileEndLength)%Z
  | None => False
  end.
Proof.
  destruct (transfer forty 0 [0%Z]) as [e|] eqn:He.
  - apply (buffer_stays_bounded forty 0 [0%Z] e); [done| |exact He].
    repeat constructor. done.
  - vm_compute in He. discriminate He.
Defined.

(** X14.  The transfer gets done.  A [bufferedamountlow] event, which
    comes with the buffer at or under the threshold, sends at least one
    more chunk while chunks are left; so after as many events as the file
    has chunks, however full the buffer was at the start, every chunk has
    been sent, and the sentinel after them. *)
Theorem enough_events_finish (file : File) (b0 : Z) (lows : list Z)
    (e : encoder) :
  Forall (fun b => (b <= BUFFER_THRESHOLD)%Z) lows ->
  (ceilDiv (length (content file)) CHUNK_SIZE <= length lows)%nat ->
  transfer file b0 lows = Some e ->
  finished e = true /\ (1 <= sentinels (wire e))%nat.
Proof.
  intros Hlows Hmany Hrun.
  assert (finished e = true) as Hfin.
  { revert Hrun. unfold transfer.
    destruct (sendFile file b0) as [e0|] eqn:Hsend; [|done]. intros [= <-].
    destruct (sendFile_reporting _ _ _ Hsend) as (cs & Hcs & He0).
    destruct (chunks_bounded _ CHUNK_SIZE_pos _ _ Hcs) as [Hlen _].
    destruct (drain_reporting file cs lows e0 He0) as [(Hc & _) Hmore].
    specialize (Hmore Hlows). unfold finished. rewrite Hc.
    apply Nat.leb_le. rewrite Hlen in *. lia. }
  split; [done|].
  destruct (transfer_sending _ _ _ _ Hrun)
    as (cs & k & _ & Hc & Hle & Hw & Hk & _).
  unfold finished in Hfin. apply Nat.leb_le in Hfin. rewrite Hc in Hfin.
  rewrite Hw, sentinels_framesOf. apply Hk. lia.
Qed.

Lemma enough_events_finish_witness :
  match transfer forty 70000 [0%Z] with
  | Some e => finished e = true /\ (1 <= sentinels (wire e))%nat
  | None => False
  end.
Proof.
  destruct (transfer forty 70000 [0%Z]) as [e|] eqn:He.
  - apply (enough_events_finish forty 70000 [0%Z] e);
      [|vm_compute; lia|exact He].
    repeat constructor; done.
  - vm_compute in He. discriminate He.
Defined.

(** *** The empty file *)

Lemma empty_file_witness_content : content (MkFile "empty" "" []) = [].
Proof. reflexivity. Defined.

(** X15.  A file of no bytes.  [chunkFile] gives no chunk; [sendFile]
    sends the metadata and, in its first call of [sendNextChunk], whatever
    the buffer holds, the sentinel, and reports no progress; and the
    receiver of the two frames, which gets no progress call either, is
    handed a file of no bytes under the name and type sent. *)
Theorem empty_file_is_sent (file : File) (b0 : Z) :
  content file = [] ->
  chunkFile file = Some []
  /\ sendFile file b0
     = Some (Encoder [] 0 0 0 (b0 + fileEndLength)
               [Text (metadata file); Text fileEnd] [])
  /\ feed createFileReceiver
       (map deliver [Text (metadata file); Text fileEnd])
     = (createFileReceiver,
        [Call (OnMetadata (metadata file));
         Call (OnComplete
                 (Received [] (str (name file))
                    (get_prop (metadata file) "mimeType")))]).
Proof.
  destruct file as [n t c]. simpl. intros ->. by repeat split.
Qed.

Lemma empty_file_is_sent_witness :
  sendFile (MkFile "empty" "" []) 5
  = Some (Encoder [] 0 0 0 24
            [Text (metadata (MkFile "empty" "" [])); Text fileEnd] []).
Proof.
  exact (proj1 (proj2 (empty_file_is_sent (MkFile "empty" "" []) 5
                         empty_file_witness_content))).
Defined.

(** ** More of the receiving side *)

Lemma counted_fresh : counted createFileReceiver.
Proof. reflexivity. Defined.

Lemma handleMessage_counted (r r' : fileReceiver) (d : data)
    (calls : list callback) :
  counted r ->
  handleMessage r d = Handled r' calls ->
  counted r'.
Proof.
  unfold counted. intros Hr.
  destruct d as [[message|]|b]; [| |]; simpl; [|done|].
  - destruct message as [| | | | |fs]; simpl; try done;
      try (by intros [= <- _]).
    destruct (assoc "type" fs) as [[| | |t| |]|];
      try (by intros [= <- _]).
    destruct (String.eqb t "file-meta"); [by intros [= <- _]|].
    destruct (String.eqb t "file-end"); [|by intros [= <- _]].
    destruct (fileMetadata r); [by intros [= <- _]|done].
  - intros [= <- _]. simpl.
    rewrite concat_app, length_app, Nat2Z.inj_add, Hr. simpl.
    by rewrite app_nil_r.
Qed.

Ltac no_calls :=
  intros [= <- <-];
  split; [by intros ? ? ?%elem_of_nil|by intros ? ?%elem_of_nil].

(** X16.  What the receiver counts is what it holds, whatever it is sent
    and in whatever order.  After any messages, [receivedBytes] is the
    number of bytes in [receivedChunks]; so each [onProgress] call gives
    the number of bytes held at that moment, a file handed to
    [onComplete] has as many bytes as were counted, and after it the
    receiver is as new. *)
Theorem receiver_counts_what_it_holds (r : fileReceiver) (ds : list data) :
  counted r ->
  counted (fst (feed r ds))
  /\ forall d r' calls,
       handleMessage r d = Handled r' calls ->
       counted r'
       /\ (forall n t, OnProgress n t ∈ calls ->
                       n = Z.of_nat (length (concat (receivedChunks r'))))
       /\ (forall f, OnComplete f ∈ calls ->
                     Z.of_nat (length (blob f)) = receivedBytes r
                     /\ r' = createFileReceiver).
Proof.
  intros Hr. split.
  - revert r Hr. induction ds as [|d ds IH]; intros r Hr; [done|]. simpl.
    destruct (handleMessage r d) as [r' calls|x] eqn:Hd.
    + specialize (IH r' (handleMessage_counted _ _ _ _ Hr Hd)).
      by destruct (feed r' ds).
    + specialize (IH r Hr). by destruct (feed r ds).
  - intros d r' calls Hd.
    split; [by eapply handleMessage_counted|].
    pose proof (handleMessage_counted _ _ _ _ Hr Hd) as Hr'.
    unfold counted in *. revert Hd.
    destruct d as [[message|]|b]; simpl; [|done|].
    + destruct message as [| | | | |fs]; simpl; try done;
        try (no_calls).
      destruct (assoc "type" fs) as [[| | |t| |]|];
        try (no_calls).
      destruct (String.eqb t "file-meta").
      { intros [= <- <-]. split.
        - by intros n t0 [=]%list_elem_of_singleton.
        - by intros f [=]%list_elem_of_singleton. }
      destruct (String.eqb t "file-end");
        [|no_calls].
      destruct (fileMetadata r) as [m|]; [|done].
      intros [= <- <-]. split.
      * by intros n t0 [=]%list_elem_of_singleton.
      * intros f [= ->]%list_elem_of_singleton. simpl. by rewrite Hr.
    + intros [= <- <-]. split.
      * destruct (fileMetadata r); [|by intros ? ? ?%elem_of_nil].
        intros n t [= -> _]%list_elem_of_singleton. simpl in *. done.
      * destruct (fileMetadata r); [|by intros ? ?%elem_of_nil].
        by intros f [=]%list_elem_of_singleton.
Qed.

Lemma receiver_counts_what_it_holds_witness :
  counted (fst (feed createFileReceiver
                  [DBinary [Byte.x01]; DString None;
                   DString (Some (metadata forty)); DBinary [Byte.x02]])).
Proof.
  exact (proj1 (receiver_counts_what_it_holds createFileReceiver
                  [DBinary [Byte.x01]; DString None;
                   DString (Some (metadata forty)); DBinary [Byte.x02]]
                  counted_fresh)).
Defined.

(** X17.  One receiver, two transfers.  Fed the frames of a first
    transfer (metadata, binary frames, sentinel) and then those of a
    second, the receiver hands over two files, each with the bytes of its
    own binary frames only and under its own metadata, and its progress
    count starts again from zero for the second; it ends as new. *)
Theorem receiver_serves_two_transfers (m1 m2 : json)
    (bs1 bs2 : list (list Byte.byte)) :
  isMetadata m1 ->
  isMetadata m2 ->
  feed createFileReceiver
    ((DString (Some m1) :: map DBinary bs1 ++ [DString (Some fileEnd)])
     ++ DString (Some m2) :: map DBinary bs2 ++ [DString (Some fileEnd)])
  = (createFileReceiver,
     (Call (OnMetadata m1) :: progressCalls 0 (get_prop m1 "size") bs1
      ++ [Call (OnComplete
                  (Received (concat bs1) (get_prop m1 "name")
                     (get_prop m1 "mimeType")))])
     ++ Call (OnMetadata m2) :: progressCalls 0 (get_prop m2 "size") bs2
     ++ [Call (OnComplete
                 (Received (concat bs2) (get_prop m2 "name")
                    (get_prop m2 "mimeType")))]).
Proof.
  intros Hm1 Hm2.
  assert (forall m bs,
            isMetadata m ->
            feed createFileReceiver
              (DString (Some m) :: map DBinary bs ++ [DString (Some fileEnd)])
            = (createFileReceiver,
               Call (OnMetadata m) :: progressCalls 0 (get_prop m "size") bs
               ++ [Call (OnComplete
                           (Received (concat bs) (get_prop m "name")
                              (get_prop m "mimeType")))])) as Hone.
  { intros m bs Hm. cbn [feed]. rewrite (handleMessage_metadata _ _ Hm).
    rewrite feed_app, feed_binary.
    cbn [fst snd fileMetadata receivedBytes receivedChunks feed
         createFileReceiver app].
    erewrite handleMessage_fileEnd by reflexivity. reflexivity. }
  rewrite feed_app, !Hone by done. reflexivity.
Qed.

Lemma receiver_serves_two_transfers_witness :
  feed createFileReceiver
    ((DString (Some (metadata forty)) :: map DBinary [[Byte.x01]]
      ++ [DString (Some fileEnd)])
     ++ DString (Some (metadata forty)) :: map DBinary [[Byte.x02]]
     ++ [DString (Some fileEnd)])
  = (createFileReceiver,
     (Call (OnMetadata (metadata forty))
      :: progressCalls 0 (get_prop (metadata forty) "size") [[Byte.x01]]
      ++ [Call (OnComplete
                  (Received (concat [[Byte.x01]])
                     (get_prop (metadata forty) "name")
                     (get_prop (metadata forty) "mimeType")))])
     ++ Call (OnMetadata (metadata forty))
     :: progressCalls 0 (get_prop (metadata forty) "size") [[Byte.x02]]
     ++ [Call (OnComplete
                 (Received (concat [[Byte.x02]])
                    (get_prop (metadata forty) "name")
                    (get_prop (metadata forty) "mimeType")))]).
Proof.
  exact (receiver_serves_two_transfers (metadata forty) (metadata forty)
           [[Byte.x01]] [[Byte.x02]] eq_refl eq_refl).
Defined.
